(** * Veterinary clinic record keeper ([oop_hw04.py]): a shallow embedding

    The program keeps clients, their pets and the pets' appointments in
    Python objects, validates three attributes through descriptors
    ([Name], [Age], [Phone]) and persists the client list with [pickle].

    Python objects are modelled by their instance [__dict__] (a finite map
    from attribute names to values), methods by state-passing functions
    over that map that either return or raise, and the disk by a finite map
    from file names to file contents. *)

From Stdlib Require Import ZArith NArith Lia.
From stdpp Require Import base gmap strings list.

Set Warnings "-register-all".
Local Open Scope Z_scope.

(** ** Values *)

(** A Python [str] is a sequence of Unicode code points. *)
Abbreviation str := (list N).

(** An ASCII literal of the source, as a [str]. *)
Definition lit (s : string) : str :=
  map (fun a => N.of_nat (Ascii.nat_of_ascii a)) (String.list_ascii_of_string s).

(** The classes the module defines whose instances are created at run time. *)
Inductive pyclass := CPet | CClient | CDatabase.

(** The values the program handles.  Attribute names and the keys of the
    appointment record are identifiers of the source text ([string]);
    text typed by the user is a [str]. *)
Inductive value : Type :=
| VNone
| VBool (b : bool)
| VInt (z : Z)
| VStr (s : str)
| VList (xs : list value)
| VDict (d : gmap string value)
| VObj (c : pyclass) (d : gmap string value).

Abbreviation dict := (gmap string value).

(** [isinstance(value, int)]: [bool] is a subclass of [int], and [True]
    and [False] compare as 1 and 0. *)
Definition int_value (v : value) : option Z :=
  match v with
  | VInt z => Some z
  | VBool b => Some (if b then 1 else 0)
  | _ => None
  end.

(** [isinstance(value, str)]. *)
Definition str_value (v : value) : option str :=
  match v with
  | VStr s => Some s
  | _ => None
  end.

(** [value is None]. *)
Definition is_None (v : value) : bool :=
  match v with
  | VNone => true
  | _ => false
  end.

(** ** The [str] methods the program calls *)

Definition in_ranges (c : N) (rs : list (N * N)) : bool :=
  existsb (fun r => (fst r <=? c)%N && (c <=? snd r)%N) rs.

(** [Py_UNICODE_ISSPACE]: the code points [str.strip()] removes. *)
Definition whitespace_ranges : list (N * N) :=
  [ (9, 13); (28, 32); (133, 133); (160, 160); (5760, 5760); (8192, 8202);
    (8232, 8233); (8239, 8239); (8287, 8287); (12288, 12288) ]%N.

Definition isspace_char (c : N) : bool := in_ranges c whitespace_ranges.

(** First code points of the runs of ten decimal digits (general category
    Nd, Unicode 14.0.0 as shipped with CPython 3.11): ASCII, Arabic-Indic,
    Devanagari, ..., fullwidth, ... *)
Definition decimal_zeros : list N :=
  [ 0x30; 0x660; 0x6f0; 0x7c0; 0x966; 0x9e6; 0xa66; 0xae6; 0xb66; 0xbe6;
    0xc66; 0xce6; 0xd66; 0xde6; 0xe50; 0xed0; 0xf20; 0x1040; 0x1090; 0x17e0;
    0x1810; 0x1946; 0x19d0; 0x1a80; 0x1a90; 0x1b50; 0x1bb0; 0x1c40; 0x1c50;
    0xa620; 0xa8d0; 0xa900; 0xa9d0; 0xa9f0; 0xaa50; 0xabf0; 0xff10; 0x104a0;
    0x10d30; 0x11066; 0x110f0; 0x11136; 0x111d0; 0x112f0; 0x11450; 0x114d0;
    0x11650; 0x116c0; 0x11730; 0x118e0; 0x11950; 0x11c50; 0x11d50; 0x11da0;
    0x16a60; 0x16ac0; 0x16b50; 0x1e140; 0x1e2f0; 0x1e950; 0x1fbf0 ]%N.

(** [Py_UNICODE_ISDECIMAL], what [str.isdecimal()] tests: the runs above and
    the five runs of mathematical digits at U+1D7CE. *)
Definition decimal_ranges : list (N * N) :=
  map (fun z => (z, z + 9)%N) decimal_zeros ++ [ (0x1d7ce, 0x1d7ff)%N ].

Definition isdecimal_char (c : N) : bool := in_ranges c decimal_ranges.

(** Code points with Numeric_Type=Digit that are not decimal: superscripts
    and subscripts, circled and parenthesised digits, Ethiopic digits, ... *)
Definition other_digit_ranges : list (N * N) :=
  [ (178, 179); (185, 185); (4969, 4977); (6618, 6618); (8304, 8304);
    (8308, 8313); (8320, 8329); (9312, 9320); (9332, 9340); (9352, 9360);
    (9450, 9450); (9461, 9469); (9471, 9471); (10102, 10110); (10112, 10120);
    (10122, 10130); (68160, 68163); (69216, 69224); (69714, 69722);
    (127232, 127242) ]%N.

(** [Py_UNICODE_ISDIGIT]: Numeric_Type=Digit or Numeric_Type=Decimal. *)
Definition isdigit_char (c : N) : bool :=
  isdecimal_char c || in_ranges c other_digit_ranges.

(** [str.isdigit()]: every character is a digit and there is at least one. *)
Definition isdigit (s : str) : bool :=
  match s with
  | [] => false
  | _ => forallb isdigit_char s
  end.

(** [str.isdecimal()], for comparison with [isdigit]. *)
Definition isdecimal (s : str) : bool :=
  match s with
  | [] => false
  | _ => forallb isdecimal_char s
  end.

Fixpoint lstrip (s : str) : str :=
  match s with
  | c :: s' => if isspace_char c then lstrip s' else s
  | [] => []
  end.

Definition rstrip (s : str) : str := rev (lstrip (rev s)).

(** [str.strip()] without argument. *)
Definition strip (s : str) : str := rstrip (lstrip s).

Definition is_ascii (c : N) : bool := (c <? 128)%N.

Definition ascii_lower (c : N) : N :=
  if (65 <=? c)%N && (c <=? 90)%N then (c + 32)%N else c.

(** ** Exceptions and the state-and-exception monad *)

(** What [open] raises from the operating system besides
    [FileNotFoundError]: the other subclasses of [OSError] it uses, and
    [OSError] itself. *)
Inductive os_error :=
| NotADirectoryError
| IsADirectoryError
| PermissionError
| PlainOSError.

Inductive exn :=
| ValueError (msg : string)
| AttributeError
| TypeError
| FileNotFoundError
| EOFError
| UnpicklingError
| OSError (kind : os_error).

Inductive result (A : Type) :=
| Ok (a : A)
| Raise (e : exn).
Arguments Ok {A} a.
Arguments Raise {A} e.

(** A computation over a mutable state [S].  The state comes back in both
    cases: Python does not roll anything back when an exception is raised. *)
Definition M (S A : Type) : Type := S -> result A * S.

Definition ret {S A} (a : A) : M S A := fun s => (Ok a, s).

Definition raise {S A} (e : exn) : M S A := fun s => (Raise e, s).

Definition bind {S A B} (m : M S A) (k : A -> M S B) : M S B :=
  fun s =>
    match m s with
    | (Ok a, s') => k a s'
    | (Raise e, s') => (Raise e, s')
    end.

(** [try: m except <the exceptions h handles>: h e]. *)
Definition try_except {S A} (m : M S A) (h : exn -> option (M S A)) : M S A :=
  fun s =>
    match m s with
    | (Ok a, s') => (Ok a, s')
    | (Raise e, s') =>
        match h e with
        | Some k => k s'
        | None => (Raise e, s')
        end
    end.

Declare Scope py_scope.
Delimit Scope py_scope with py.
Notation "'let!' x := m 'in' k" := (bind m (fun x => k))
  (at level 10, x name, m at level 100, k at level 200) : py_scope.
Notation "m ;; k" := (bind m (fun _ => k))
  (at level 100, k at level 200, right associativity) : py_scope.
Local Open Scope py_scope.

(** ** Instance dictionaries *)

(** [instance.__dict__[name] = value]. *)
Definition dict_setitem (name : string) (v : value) : M dict unit :=
  fun d => (Ok tt, <[name := v]> d).

(** [instance.__dict__.get(name)]: [None] when the key is absent. *)
Definition dict_get (name : string) : M dict value :=
  fun d => (Ok (default VNone (d !! name)), d).

(** Plain attribute read: [AttributeError] when the instance has no such
    attribute (the classes define no data attribute besides descriptors). *)
Definition dict_getattr (name : string) : M dict value :=
  fun d =>
    match d !! name with
    | Some v => (Ok v, d)
    | None => (Raise AttributeError, d)
    end.

(** ** Descriptors

    [self.name] is the attribute name [__set_name__] recorded; it is the
    first argument of [__get__] and [__set__] below. *)

Module Name.
Definition __get__ (name : string) : M dict value := dict_get name.

Definition __set__ (name : string) (value : value) : M dict unit :=
  match str_value value with
  | None => raise (ValueError "Имя должно быть строкой длиной не менее 2 символов")
  | Some s =>
      if (length (strip s) <? 2)%nat
      then raise (ValueError "Имя должно быть строкой длиной не менее 2 символов")
      else dict_setitem name value
  end.
End Name.

Module Age.
Definition __get__ (name : string) : M dict value := dict_get name.

Definition __set__ (name : string) (value : value) : M dict unit :=
  match int_value value with
  | None => raise (ValueError "Возраст должен быть числом от 1 до 99")
  | Some z =>
      if negb ((0 <? z) && (z <? 100))
      then raise (ValueError "Возраст должен быть числом от 1 до 99")
      else dict_setitem name value
  end.
End Age.

Module Phone.
Definition __get__ (name : string) : M dict value := dict_get name.

Definition __set__ (name : string) (value : value) : M dict unit :=
  match str_value value with
  | None => raise (ValueError "Номер телефона должен содержать от 10 до 11 цифр")
  | Some s =>
      if negb (isdigit s) || negb ((10 <=? length s)%nat && (length s <=? 11)%nat)
      then raise (ValueError "Номер телефона должен содержать от 10 до 11 цифр")
      else dict_setitem name value
  end.
End Phone.

(** ** Attribute access on instances *)

Inductive descriptor := DName | DAge | DPhone.

(** The data descriptors each class declares in its body. *)
Definition class_descriptor (c : pyclass) (attr : string) : option descriptor :=
  match c with
  | CPet =>
      if String.eqb attr "name" then Some DName
      else if String.eqb attr "age" then Some DAge
      else None
  | CClient =>
      if String.eqb attr "name" then Some DName
      else if String.eqb attr "phone" then Some DPhone
      else None
  | CDatabase => None
  end.

(** [self.attr = v] inside a method of class [c]: a data descriptor of the
    class intercepts the assignment, otherwise the instance dictionary is
    written.  This is the assignment of an ordinary attribute, as all
    those of the program are; the special attributes [__dict__] and
    [__class__], which the program never assigns, replace the dictionary
    or the class instead and are not described by it. *)
Definition setattr (c : pyclass) (attr : string) (v : value) : M dict unit :=
  match class_descriptor c attr with
  | Some DName => Name.__set__ attr v
  | Some DAge => Age.__set__ attr v
  | Some DPhone => Phone.__set__ attr v
  | None => dict_setitem attr v
  end.

(** [self.attr] inside a method of class [c]. *)
Definition getattr (c : pyclass) (attr : string) : M dict value :=
  match class_descriptor c attr with
  | Some DName => Name.__get__ attr
  | Some DAge => Age.__get__ attr
  | Some DPhone => Phone.__get__ attr
  | None => dict_getattr attr
  end.

(** [self.attr.append(x)]: the list object the attribute refers to grows in
    place; a value that is not a list has no [append]. *)
Definition attr_append (c : pyclass) (attr : string) (x : value) : M dict unit :=
  let! l := getattr c attr in
  match l with
  | VList xs => dict_setitem attr (VList (xs ++ [x]))
  | _ => raise AttributeError
  end.

(** [C(args)]: a fresh instance with an empty dictionary is handed to
    [__init__]; when [__init__] raises, no object comes into being. *)
Definition instantiate (c : pyclass) (init : M dict unit) : result value :=
  match init ∅ with
  | (Ok _, d) => Ok (VObj c d)
  | (Raise e, _) => Raise e
  end.

(** ** Pet *)

Module Pet.
Definition __init__ (name age : value) : M dict unit :=
  setattr CPet "name" name ;;
  setattr CPet "age" age ;;
  setattr CPet "scheduled_appointment" VNone ;;
  setattr CPet "past_appointments" (VList []).

Definition new (name age : value) : result value :=
  instantiate CPet (__init__ name age).

Definition add_appointment (date : value) : M dict unit :=
  let! scheduled := getattr CPet "scheduled_appointment" in
  if negb (is_None scheduled)
  then raise (ValueError "Прием уже запланирован")
  else setattr CPet "scheduled_appointment" date.

(** The bound method [self.past_appointments.append] is looked up first
    (only a list has it), then the argument is built, which reads
    [self.scheduled_appointment]; the list grows in place. *)
Definition complete_appointment (comment : value) : M dict unit :=
  let! past := getattr CPet "past_appointments" in
  match past with
  | VList xs =>
      let! scheduled := getattr CPet "scheduled_appointment" in
      dict_setitem "past_appointments"
        (VList (xs ++ [VDict (<["date" := scheduled]> (<["comment" := comment]> ∅))]))
  | _ => raise AttributeError
  end ;;
  setattr CPet "scheduled_appointment" VNone.
End Pet.

(** ** Client *)

Module Client.
Definition __init__ (name phone : value) : M dict unit :=
  setattr CClient "name" name ;;
  setattr CClient "phone" phone ;;
  setattr CClient "pets" (VList []).

Definition new (name phone : value) : result value :=
  instantiate CClient (__init__ name phone).

Definition add_pet (pet : value) : M dict unit :=
  attr_append CClient "pets" pet.
End Client.

(** ** Database *)

(** Exceptions through pure steps. *)
Definition result_bind {A B} (r : result A) (k : A -> result B) : result B :=
  match r with
  | Ok a => k a
  | Raise e => Raise e
  end.

Notation "'let?' x := r 'in' k" := (result_bind r (fun x => k))
  (at level 10, x name, r at level 100, k at level 200) : py_scope.

Definition lift {S A} (r : result A) : M S A := fun s => (r, s).

(** What a path on the disk holds: a file of zero bytes (just opened for
    writing) or the bytes [pickle] wrote. *)
Inductive file (blob : Type) :=
| Empty
| Data (b : blob).
Arguments Empty {blob}.
Arguments Data {blob} b.

(** [obj.attr] on an arbitrary value, for the attributes the program reads
    ([name], [phone], [pets], ...): instances answer through [getattr];
    [None], numbers, strings, lists and dicts have none of them. *)
Definition obj_getattr (obj : value) (attr : string) : result value :=
  match obj with
  | VObj c d => fst (getattr c attr d)
  | _ => Raise AttributeError
  end.

(** A file name with a NUL character in it: [open] refuses it with
    [ValueError] before the operating system is asked. *)
Definition has_nul (path : str) : bool := existsb (N.eqb 0) path.

Module Database.
Section Interpreter.
(** The parts of the Python runtime the source relies on without
    containing them: the [pickle] codec and the case mapping of
    non-ASCII text. *)
Context {blob : Type}.
Variable pickle_dumps : value -> blob.
Variable pickle_loads : blob -> result value.
Variable unicode_lower : str -> str.

(** The operating system behind [open].  Whether a path can be opened is
    its decision and depends on more than the files the program knows of:
    a directory missing on the way ([FileNotFoundError]), a file in the
    place of a directory ([OSError NotADirectoryError]), a directory in
    the place of the file, permissions.  [os_refuses writing path disk] is
    that decision for the mode ['wb'] ([writing]) or ['rb']: [None] lets
    the call through, [Some e] makes it raise [e]. *)
Variable os_refuses : bool -> str -> gmap str (file blob) -> option exn.

(** The state of a [Database] method: [self.__dict__] and the disk. *)
Definition world : Type := dict * gmap str (file blob).

Definition on_self {A} (m : M dict A) : M world A :=
  fun w => let (r, d) := m (fst w) in (r, (d, snd w)).

(** What [open(path, mode)] raises before it looks for the file: a name
    with a NUL in it is a [ValueError], the empty name is not found, and
    for the rest the operating system decides. *)
Definition refusal (writing : bool) (path : str) (disk : gmap str (file blob)) : option exn :=
  if has_nul path then Some (ValueError "embedded null byte")
  else
    match path with
    | [] => Some FileNotFoundError
    | _ => os_refuses writing path disk
    end.

(** [open(filename, 'rb')]: the handle is the path of an existing file;
    a path that is let through and has no file is not found. *)
Definition open_rb (filename : value) : M world str :=
  fun w =>
    match filename with
    | VStr path =>
        match refusal false path (snd w) with
        | Some e => (Raise e, w)
        | None =>
            match snd w !! path with
            | Some _ => (Ok path, w)
            | None => (Raise FileNotFoundError, w)
            end
        end
    | _ => (Raise TypeError, w)
    end.

(** [open(filename, 'wb')]: when the path is let through, creates the
    file or truncates it. *)
Definition open_wb (filename : value) : M world str :=
  fun w =>
    match filename with
    | VStr path =>
        match refusal true path (snd w) with
        | Some e => (Raise e, w)
        | None => (Ok path, (fst w, <[path := Empty]> (snd w)))
        end
    | _ => (Raise TypeError, w)
    end.

(** [pickle.load(f)]. *)
Definition pickle_load (f : str) : M world value :=
  fun w =>
    match snd w !! f with
    | Some (Data b) => (pickle_loads b, w)
    | _ => (Raise EOFError, w)
    end.

(** [pickle.dump(obj, f)]. *)
Definition pickle_dump (obj : value) (f : str) : M world unit :=
  fun w => (Ok tt, (fst w, <[f := Data (pickle_dumps obj)]> (snd w))).

Definition load : M world unit :=
  try_except
    (let! filename := on_self (getattr CDatabase "filename") in
     let! f := open_rb filename in
     let! clients := pickle_load f in
     on_self (setattr CDatabase "clients" clients))
    (fun e =>
       match e with
       | FileNotFoundError => Some (on_self (setattr CDatabase "clients" (VList [])))
       | _ => None
       end).

Definition __init__ (filename : value) : M world unit :=
  on_self (setattr CDatabase "filename" filename) ;;
  on_self (setattr CDatabase "clients" (VList [])) ;;
  load.

Definition add_client (client : value) : M world unit :=
  on_self (attr_append CDatabase "clients" client).

Definition save : M world unit :=
  let! filename := on_self (getattr CDatabase "filename") in
  let! f := open_wb filename in
  let! clients := on_self (getattr CDatabase "clients") in
  pickle_dump clients f.

(** [str.lower()]: on ASCII text the letters A-Z move to a-z; other text
    goes through the interpreter's Unicode tables. *)
Definition lower (s : str) : str :=
  if forallb is_ascii s then map ascii_lower s else unicode_lower s.

(** [v.lower()]: only a [str] has the method. *)
Definition str_lower (v : value) : result str :=
  match v with
  | VStr s => Ok (lower s)
  | _ => Raise AttributeError
  end.

(** The condition of the comprehension:
    [client.name.lower() == name.lower()]. *)
Definition name_matches (name client : value) : result bool :=
  let? n := obj_getattr client "name" in
  let? l := str_lower n in
  let? r := str_lower name in
  Ok (bool_decide (l = r)).

(** [[client for client in clients if ...]]. *)
Fixpoint comprehension (name : value) (clients : list value) : result (list value) :=
  match clients with
  | [] => Ok []
  | client :: rest =>
      let? keep := name_matches name client in
      let? found := comprehension name rest in
      Ok (if keep then client :: found else found)
  end.

(** [self.clients] is a list in every state the program reaches ([[]] or
    what [pickle.load] returned for a saved list); iterating over other
    values is not modelled beyond the failure of non-iterables. *)
Definition find_clients_by_name (name : value) : M world value :=
  let! clients := on_self (getattr CDatabase "clients") in
  match clients with
  | VList xs => lift (let? found := comprehension name xs in Ok (VList found))
  | _ => raise TypeError
  end.

(** The condition [client.phone == phone].  The query is the text read
    from the console, a [str]: a value of another type is not equal to
    it, a [str] is when it has the same code points. *)
Definition phone_matches (phone : str) (client : value) : result bool :=
  let? p := obj_getattr client "phone" in
  Ok (match p with
      | VStr s => bool_decide (s = phone)
      | _ => false
      end).

Fixpoint comprehension_phone (phone : str) (clients : list value) : result (list value) :=
  match clients with
  | [] => Ok []
  | client :: rest =>
      let? keep := phone_matches phone client in
      let? found := comprehension_phone phone rest in
      Ok (if keep then client :: found else found)
  end.

Definition find_clients_by_phone (phone : str) : M world value :=
  let! clients := on_self (getattr CDatabase "clients") in
  match clients with
  | VList xs => lift (let? found := comprehension_phone phone xs in Ok (VList found))
  | _ => raise TypeError
  end.
End Interpreter.
End Database.

(** ** The menu handler's guard

    The last step of the menu handler [complete_appointment(db)] (from
    [if pet.scheduled_appointment is None] on), with [pet] bound to the pet
    the user selected.  [pet] refers to the object inside the database, so
    the method call changes that pet in place: the state below is the pet's
    dictionary together with the console. *)

Module Menu.
(** The lines the user will type and the lines printed so far. *)
Record console := Console { stdin : list str; stdout : list string }.

Definition on_pet {A} (m : M dict A) : M (dict * console) A :=
  fun w => let (r, d) := m (fst w) in (r, (d, snd w)).

Definition print (text : string) : M (dict * console) unit :=
  fun w => (Ok tt, (fst w, Console (stdin (snd w)) (stdout (snd w) ++ [text]))).

(** [input(prompt)]: shows the prompt and reads a line; [EOFError] when
    the input is exhausted. *)
Definition input (prompt : string) : M (dict * console) value :=
  print prompt ;;
  fun w =>
    match stdin (snd w) with
    | line :: rest => (Ok (VStr line), (fst w, Console rest (stdout (snd w))))
    | [] => (Raise EOFError, w)
    end.

Definition complete_appointment_selected : M (dict * console) unit :=
  let! scheduled := on_pet (getattr CPet "scheduled_appointment") in
  if is_None scheduled
  then print "У питомца нет запланированного приема"
  else
    let! comment := input "Введите комментарий ветеринара: " in
    on_pet (Pet.complete_appointment comment) ;;
    print "Прием завершен и комментарий добавлен".
End Menu.

(** ** The menu handlers

    The handlers behind the menu entries 2, 3 and 4 and the functions they
    share.  Their state is the database object, the disk and the console.

    What is printed is kept as the pieces of the f-string: the literal
    text and, for an interpolated value, the value whose [str()] appears.

    The handlers pick an object of the store and then change it.  In this
    tree of values an object is not an address, so a found client travels
    with its position in [db.clients], and a pet with the position of its
    owner and its own position in [client.pets]; the change is written
    back at that place. *)

(** [bool(v)], what [if v] and [not v] test.  The classes define neither
    [__bool__] nor [__len__], so every instance is true. *)
Definition truthy (v : value) : bool :=
  match v with
  | VNone => false
  | VBool b => b
  | VInt z => negb (z =? 0)
  | VStr s => match s with [] => false | _ => true end
  | VList xs => match xs with [] => false | _ => true end
  | VDict d => match map_to_list d with [] => false | _ => true end
  | VObj _ _ => true
  end.

(** [db.clients[i].pets[j] = pet], as far as the path exists. *)
Definition put_pet (i j : nat) (pet : value) (db : dict) : dict :=
  match db !! "clients" with
  | Some (VList clients) =>
      match clients !! i with
      | Some (VObj c cd) =>
          match cd !! "pets" with
          | Some (VList pets) =>
              <["clients" :=
                  VList (<[i := VObj c (<["pets" := VList (<[j := pet]> pets)]> cd)]> clients)]> db
          | _ => db
          end
      | _ => db
      end
  | _ => db
  end.

(** The condition of a search comprehension run over the store, keeping
    with each client found its position. *)
Fixpoint tagged (cond : value -> result bool) (i : nat) (clients : list value)
  : result (list (nat * value)) :=
  match clients with
  | [] => Ok []
  | client :: rest =>
      let? keep := cond client in
      let? found := tagged cond (S i) rest in
      Ok (if keep then (i, client) :: found else found)
  end.

(** [while True: body]: [inl] goes round again, [inr] is [break].  The
    source sets no bound; [fuel] rounds are run and [None] says they did
    not suffice. *)
Fixpoint while_true {S A : Type} (fuel : nat) (body : A -> M S (A + A)) (a : A) (s : S)
  : option (result A * S) :=
  match fuel with
  | O => None
  | S n =>
      match body a s with
      | (Ok (inl a'), s') => while_true n body a' s'
      | (Ok (inr a'), s') => Some (Ok a', s')
      | (Raise e, s') => Some (Raise e, s')
      end
  end.

(** A piece of a printed line. *)
Inductive piece :=
| Text (s : string)
| Shown (v : value).

(** The double quote inside a literal. *)
Definition dquote : string := String (Ascii.ascii_of_nat 34) EmptyString.

(** The literals ['да'] and ['нет'] as code points. *)
Definition da : str := [1076; 1072]%N.
Definition net : str := [1085; 1077; 1090]%N.

Module Shell.
Section Interpreter.
(** From the interpreter: the case mapping of non-ASCII text, and [int()]
    on a [str] with the message of its [ValueError]. *)
Context {blob : Type}.
Variable unicode_lower : str -> str.
Variable parse_int : str -> option Z.
Variable int_error : str -> string.

Record console := Console { stdin : list str; stdout : list (list piece) }.

Definition state : Type := @Database.world blob * console.

Definition on_db {A} (m : M (@Database.world blob) A) : M state A :=
  fun s => let (r, w) := m (fst s) in (r, (w, snd s)).

Definition print (line : list piece) : M state unit :=
  fun s => (Ok tt, (fst s, Console (stdin (snd s)) (stdout (snd s) ++ [line]))).

(** [input(prompt)]: shows the prompt and reads a line; [EOFError] when
    the input is exhausted. *)
Definition input (prompt : string) : M state str :=
  print [Text prompt] ;;
  fun s =>
    match stdin (snd s) with
    | line :: rest => (Ok line, (fst s, Console rest (stdout (snd s))))
    | [] => (Raise EOFError, s)
    end.

(** [int(s)]. *)
Definition int (s : str) : result Z :=
  match parse_int s with
  | Some z => Ok z
  | None => Raise (ValueError (int_error s))
  end.

(** [db.find_clients_by_...(...)], each client with its position. *)
Definition find_clients (cond : value -> result bool) : M state (list (nat * value)) :=
  let! clients := on_db (Database.on_self (getattr CDatabase "clients")) in
  match clients with
  | VList xs => lift (tagged cond 0 xs)
  | _ => raise TypeError
  end.

(** The end of [find_client]: [if not results: print(...)], [return results]. *)
Definition report {A} (results : list A) : M state (list A) :=
  match results with
  | [] => print [Text "Клиент не найден"]
  | _ => ret tt
  end ;;
  ret results.

Definition find_client : M state (list (nat * value)) :=
  let! choice := input "Искать по имени (1) или телефону (2)? " in
  if bool_decide (choice = lit "1") then
    let! name := input "Введите имя клиента: " in
    let! results := find_clients (Database.name_matches unicode_lower (VStr name)) in
    report results
  else if bool_decide (choice = lit "2") then
    let! phone := input "Введите телефон клиента: " in
    let! results := find_clients (Database.phone_matches phone) in
    report results
  else
    print [Text "Неверный выбор"] ;;
    ret [].

(** [for idx, item in enumerate(lst, idx): print(f'{idx}. {item}')]. *)
Fixpoint print_numbered {A} (val : A -> value) (idx : Z) (lst : list A) : M state unit :=
  match lst with
  | [] => ret tt
  | item :: rest =>
      print [Shown (VInt idx); Text ". "; Shown (val item)] ;;
      print_numbered val (idx + 1) rest
  end.

(** The body [select_from_list] and [select_pet] have in common, over
    [lst] and over [client.pets]; [val] gives the object an item stands
    for. *)
Definition select_from_list {A} (val : A -> value) (lst : list A) : M state (option A) :=
  print_numbered val 1 lst ;;
  let! line := input "Введите номер: " in
  let! choice := lift (int line) in
  if (1 <=? choice) && (choice <=? Z.of_nat (length lst))
  then ret (lst !! Z.to_nat (choice - 1))
  else
    print [Text "Неверный ввод"] ;;
    ret None.

Definition select_pet (client : nat * value) : M state (option (nat * nat * value)) :=
  let! pets := lift (obj_getattr (snd client) "pets") in
  match pets with
  | VList ps => select_from_list snd (imap (fun j pet => (fst client, j, pet)) ps)
  | _ => raise TypeError
  end.

(** [pet.method(...)] on the selected pet: only a [Pet] has the
    appointment methods; what the method did to the pet is in the store
    afterwards, also when it raised.  The store is a tree of values and
    the pet is written back at the place it was picked from: this is what
    the call does to the picked pet, and to the whole store when no
    object is reachable in it along two paths, as in every store the
    program builds itself. *)
Definition call_pet {A} (pet : nat * nat * value) (method : M dict A) : M state A :=
  match snd pet with
  | VObj CPet pd =>
      fun s =>
        let (r, pd') := method pd in
        (r, ((put_pet (fst (fst pet)) (snd (fst pet)) (VObj CPet pd') (fst (fst s)),
              snd (fst s)), snd s))
  | _ => raise AttributeError
  end.

(** The steps new_appointment, complete_appointment and
    view_appointments begin with, up to the selected pet; [None] is an
    early [return]. *)
Definition pick_pet : M state (option (nat * nat * value)) :=
  let! results := find_client in
  match results with
  | [] => ret None
  | _ =>
      let! client := select_from_list snd results in
      match client with
      | None => ret None
      | Some client =>
          if negb (truthy (snd client)) then ret None
          else
            let! pets := lift (obj_getattr (snd client) "pets") in
            if negb (truthy pets) then
              print [Text "У клиента нет питомцев"] ;;
              ret None
            else
              let! pet := select_pet client in
              match pet with
              | None => ret None
              | Some pet => if negb (truthy (snd pet)) then ret None else ret (Some pet)
              end
      end
  end.

Definition new_appointment : M state unit :=
  let! pet := pick_pet in
  match pet with
  | None => ret tt
  | Some pet =>
      let! date := input "Введите дату приема: " in
      call_pet pet (Pet.add_appointment (VStr date)) ;;
      print [Text "Дата приема установлена"]
  end.

Definition complete_appointment : M state unit :=
  let! pet := pick_pet in
  match pet with
  | None => ret tt
  | Some pet =>
      let! scheduled := lift (obj_getattr (snd pet) "scheduled_appointment") in
      if is_None scheduled then print [Text "У питомца нет запланированного приема"]
      else
        let! comment := input "Введите комментарий ветеринара: " in
        call_pet pet (Pet.complete_appointment (VStr comment)) ;;
        print [Text "Прием завершен и комментарий добавлен"]
  end.

(** [client.add_pet(pet)] on the client being entered. *)
Definition client_add_pet (client pet : value) : result value :=
  match client with
  | VObj CClient cd =>
      match Client.add_pet pet cd with
      | (Ok _, cd') => Ok (VObj CClient cd')
      | (Raise e, _) => Raise e
      end
  | _ => Raise AttributeError
  end.

(** One round of the loop of [add_client]. *)
Definition add_pet_round (client : value) : M state (value + value) :=
  let! answer := input "Добавить питомца? (да/нет): " in
  let add_pet := Database.lower unicode_lower answer in
  if bool_decide (add_pet = da) then
    let! pet_name := input "Введите имя питомца: " in
    let! line := input "Введите возраст питомца: " in
    let! pet_age := lift (int line) in
    let! pet := lift (Pet.new (VStr pet_name) (VInt pet_age)) in
    let! client := lift (client_add_pet client pet) in
    print [Text "Питомец добавлен"] ;;
    ret (inl client)
  else if bool_decide (add_pet = net) then ret (inr client)
  else
    print [Text ("Введите " ++ dquote ++ "да" ++ dquote ++ " или "
                 ++ dquote ++ "нет" ++ dquote)%string] ;;
    ret (inl client).

(** The body of the [try]. *)
Definition add_client_try (fuel : nat) (s : state) : option (result unit * state) :=
  match (let! name := input "Введите имя клиента: " in
         let! phone := input "Введите телефон клиента: " in
         lift (Client.new (VStr name) (VStr phone))) s with
  | (Raise e, s1) => Some (Raise e, s1)
  | (Ok client, s1) =>
      match while_true fuel add_pet_round client s1 with
      | None => None
      | Some (Raise e, s2) => Some (Raise e, s2)
      | Some (Ok client', s2) =>
          Some ((on_db (Database.add_client client') ;;
                 print [Text "Клиент добавлен"]) s2)
      end
  end.

(** [add_client(db)]: [except ValueError as e] prints the message. *)
Definition add_client (fuel : nat) (s : state) : option (result unit * state) :=
  match add_client_try fuel s with
  | Some (Raise (ValueError msg), s') =>
      Some (print [Text "Произошла ошибка: "; Text msg] s')
  | other => other
  end.
End Interpreter.
End Shell.

(** ** Vocabulary of the statements *)

(** The record [complete_appointment] files. *)
Definition appointment (date comment : value) : value :=
  VDict (<["date" := date]> (<["comment" := comment]> ∅)).

Definition succeeds {A} (r : result A) : Prop := exists a, r = Ok a.

Definition raises_ValueError {A} (r : result A) : Prop :=
  exists msg, r = Raise (ValueError msg).

(** The name a client object answers with when it holds a [str]. *)
Definition client_name (client : value) : option str :=
  match obj_getattr client "name" with
  | Ok (VStr n) => Some n
  | _ => None
  end.

(** What the methods of [Pet] rely on, and every pet has from its
    construction on: both appointment attributes exist and the history is
    a list. *)
Definition pet_state (d : dict) : Prop :=
  is_Some (d !! "scheduled_appointment") /\
  exists past : list value, d !! "past_appointments" = Some (VList past).

(** The fields as the descriptors accept them. *)
Definition valid_name (v : value) : Prop :=
  exists s : str, v = VStr s /\ (2 <= length (strip s))%nat.

Definition valid_age (v : value) : Prop :=
  exists z : Z, int_value v = Some z /\ 1 <= z <= 99.

Definition valid_phone (v : value) : Prop :=
  exists s : str,
    v = VStr s /\ forallb isdigit_char s = true /\ (length s = 10 \/ length s = 11)%nat.

(** The validated attributes of an instance hold accepted values. *)
Definition pet_valid (d : dict) : Prop :=
  (exists n : value, d !! "name" = Some n /\ valid_name n) /\
  (exists a : value, d !! "age" = Some a /\ valid_age a).

Definition client_valid (d : dict) : Prop :=
  (exists n : value, d !! "name" = Some n /\ valid_name n) /\
  (exists p : value, d !! "phone" = Some p /\ valid_phone p).

(** The attributes the program stores on its objects, by [self.attr = ...]
    in the constructors and methods. *)
Definition stored_attributes : list string :=
  ["name"; "age"; "phone"; "scheduled_appointment"; "past_appointments";
   "pets"; "filename"; "clients"].

Definition stored_attribute (attr : string) : bool :=
  existsb (String.eqb attr) stored_attributes.

(** A session on one pet: the appointment methods called one after the
    other, the caller going on with the same object after a call that
    raised. *)
Inductive pet_call :=
| CallAdd (date : value)
| CallComplete (comment : value).

Definition run_call (c : pet_call) : M dict unit :=
  match c with
  | CallAdd date => Pet.add_appointment date
  | CallComplete comment => Pet.complete_appointment comment
  end.

Fixpoint run_calls (cs : list pet_call) (d : dict) : dict :=
  match cs with
  | [] => d
  | c :: cs' => run_calls cs' (snd (run_call c d))
  end.

Definition is_complete (c : pet_call) : bool :=
  match c with
  | CallComplete _ => true
  | CallAdd _ => false
  end.

(** [client.add_pet(p)] for each [p] of a list, in order. *)
Fixpoint add_pets (pets : list value) : M dict unit :=
  match pets with
  | [] => ret tt
  | p :: rest => Client.add_pet p ;; add_pets rest
  end.

(** The phone a client object answers with when it holds a [str]. *)
Definition client_phone (client : value) : option str :=
  match obj_getattr client "phone" with
  | Ok (VStr p) => Some p
  | _ => None
  end.

Definition is_client (v : value) : Prop := exists d : dict, v = VObj CClient d.

(** [db.add_client(c)] for each [c] of a list, in order. *)
Fixpoint add_clients {blob : Type} (clients : list value) : M (@Database.world blob) unit :=
  match clients with
  | [] => ret tt
  | c :: rest => Database.add_client c ;; add_clients rest
  end.

(** A step of a handler that leaves the database object and the disk as
    they are, whatever it reads and prints and whether or not it raises. *)
Definition keeps_world {blob A : Type} (m : M (@Shell.state blob) A) : Prop :=
  forall s, fst (snd (m s)) = fst s.

(** A step of a handler that leaves the disk as it is. *)
Definition keeps_disk {blob A : Type} (m : M (@Shell.state blob) A) : Prop :=
  forall s, snd (fst (snd (m s))) = snd (fst s).

(** The pet at position [j] of the client at position [i] of the store. *)
Definition pet_at (db : dict) (i j : nat) : option value :=
  match db !! "clients" with
  | Some (VList clients) =>
      match clients !! i with
      | Some (VObj c cd) =>
          match cd !! "pets" with
          | Some (VList pets) => pets !! j
          | _ => None
          end
      | _ => None
      end
  | _ => None
  end.






(** The three errors of the descriptors. *)
Definition name_error : exn :=
  ValueError "Имя должно быть строкой длиной не менее 2 символов".

Definition age_error : exn :=
  ValueError "Возраст должен быть числом от 1 до 99".

Definition phone_error : exn :=
  ValueError "Номер телефона должен содержать от 10 до 11 цифр".

(** ** Sample objects *)

(** [Pet("Rex", 3)]. *)
Definition rex : dict :=
  <["past_appointments" := VList []]>
    (<["scheduled_appointment" := VNone]>
       (<["age" := VInt 3]> (<["name" := VStr (lit "Rex")]> ∅))).

(** ... after [add_appointment("2024-05-01")]. *)
Definition rex_scheduled : dict :=
  <["scheduled_appointment" := VStr (lit "2024-05-01")]> rex.

(** [Client("Anna", "79001234567")] and [Client("ANNA", "4951234567")]. *)
Definition anna : value :=
  VObj CClient
    (<["pets" := VList []]>
       (<["phone" := VStr (lit "79001234567")]> (<["name" := VStr (lit "Anna")]> ∅))).

Definition anna_upper : value :=
  VObj CClient
    (<["pets" := VList []]>
       (<["phone" := VStr (lit "4951234567")]> (<["name" := VStr (lit "ANNA")]> ∅))).

Definition boris : value :=
  VObj CClient
    (<["pets" := VList [VObj CPet rex]]>
       (<["phone" := VStr (lit "4957654321")]> (<["name" := VStr (lit "Boris")]> ∅))).

(** A client whose pet has an appointment scheduled. *)
Definition carol : value :=
  VObj CClient
    (<["pets" := VList [VObj CPet rex_scheduled]]>
       (<["phone" := VStr (lit "4950000000")]> (<["name" := VStr (lit "Carol")]> ∅))).

(** A database object over the default file name. *)
Definition clinic : dict :=
  <["clients" := VList [anna; boris; anna_upper]]>
    (<["filename" := VStr (lit "database.pkl")]> ∅).

(** A store with [carol] and [boris], and a session at the console that
    searches by name for Carol, then answers 1 to every question for a
    number. *)
Definition practice : dict :=
  <["clients" := VList [carol; boris]]>
    (<["filename" := VStr (lit "database.pkl")]> ∅).

Definition carol_session (lines : list str) : @Shell.state unit :=
  (practice, ∅, Shell.Console (lit "1" :: lit "carol" :: lit "1" :: lit "1" :: lines) []).

Definition boris_session (lines : list str) : @Shell.state unit :=
  (practice, ∅, Shell.Console (lit "1" :: lit "BORIS" :: lit "1" :: lit "1" :: lines) []).

Definition always_one (line : str) : option Z := Some 1.

Definition no_message (line : str) : string := EmptyString.

(** An operating system that lets every call of [open] through. *)
Definition no_refusals {blob : Type} (writing : bool) (path : str)
    (disk : gmap str (file blob)) : option exn := None.



(** ['a\x00b'], and a store with that file name. *)
Definition nul_name : str := [97; 0; 98]%N.

Definition nul_named : dict :=
  <["clients" := VList [anna]]> (<["filename" := VStr nul_name]> ∅).

(** Ten times SUPERSCRIPT TWO (U+00B2). *)
Definition superscript_phone : str := repeat 178%N 10.

(** * Properties *)

(** ** Attribute access *)

Lemma getattr_plain (c : pyclass) (attr : string) (d : dict) (v : value) :
  class_descriptor c attr = None ->
  d !! attr = Some v ->
  getattr c attr d = (Ok v, d).
Proof.
  intros Hc Hd. unfold getattr, dict_getattr. rewrite Hc, Hd. reflexivity.
Qed.

Lemma setattr_plain (c : pyclass) (attr : string) (v : value) (d : dict) :
  class_descriptor c attr = None ->
  setattr c attr v d = (Ok tt, <[attr := v]> d).
Proof.
  intros Hc. unfold setattr, dict_setitem. rewrite Hc. reflexivity.
Qed.

(** Each descriptor either stores the value under its own name or raises
    [ValueError] without touching the dictionary. *)
Lemma Name_set_cases (name : string) (v : value) (d : dict) :
  Name.__set__ name v d = (Ok tt, <[name := v]> d) \/
  exists msg, Name.__set__ name v d = (Raise (ValueError msg), d).
Proof.
  unfold Name.__set__, raise, dict_setitem.
  destruct (str_value v) as [s|]; [destruct (length (strip s) <? 2)%nat|]; eauto.
Qed.

Lemma Age_set_cases (name : string) (v : value) (d : dict) :
  Age.__set__ name v d = (Ok tt, <[name := v]> d) \/
  exists msg, Age.__set__ name v d = (Raise (ValueError msg), d).
Proof.
  unfold Age.__set__, raise, dict_setitem.
  destruct (int_value v) as [z|]; [destruct (negb _)|]; eauto.
Qed.

Lemma Phone_set_cases (name : string) (v : value) (d : dict) :
  Phone.__set__ name v d = (Ok tt, <[name := v]> d) \/
  exists msg, Phone.__set__ name v d = (Raise (ValueError msg), d).
Proof.
  unfold Phone.__set__, raise, dict_setitem.
  destruct (str_value v) as [s|]; [destruct (_ || _)|]; eauto.
Qed.

Lemma setattr_cases (c : pyclass) (attr : string) (v : value) (d : dict) :
  setattr c attr v d = (Ok tt, <[attr := v]> d) \/
  exists msg, setattr c attr v d = (Raise (ValueError msg), d).
Proof.
  unfold setattr. destruct (class_descriptor c attr) as [[ | | ]|].
  - apply Name_set_cases.
  - apply Age_set_cases.
  - apply Phone_set_cases.
  - left. reflexivity.
Qed.

(** ** Pet: appointments *)

Lemma complete_appointment_run (d : dict) (scheduled comment : value) (past : list value) :
  d !! "scheduled_appointment" = Some scheduled ->
  d !! "past_appointments" = Some (VList past) ->
  Pet.complete_appointment comment d =
    (Ok tt,
     <["scheduled_appointment" := VNone]>
       (<["past_appointments" := VList (past ++ [appointment scheduled comment])]> d)).
Proof.
  intros Hs Hp. unfold Pet.complete_appointment, bind.
  rewrite (getattr_plain CPet "past_appointments" d (VList past)) by (reflexivity || assumption).
  rewrite (getattr_plain CPet "scheduled_appointment" d scheduled) by (reflexivity || assumption).
  unfold dict_setitem. rewrite setattr_plain by reflexivity. reflexivity.
Qed.

(** C1. A pet with a scheduled appointment [date]: [complete_appointment]
    returns normally, the history becomes the old history followed by the
    one record [{date, comment}] (one longer, the earlier records at their
    positions), the scheduled slot becomes [None], and no other attribute
    changes. *)
Theorem complete_appointment_moves_scheduled
    (d : dict) (date comment : value) (past : list value) :
  d !! "scheduled_appointment" = Some date ->
  is_None date = false ->
  d !! "past_appointments" = Some (VList past) ->
  exists (d' : dict) (past' : list value),
    Pet.complete_appointment comment d = (Ok tt, d') /\
    d' !! "past_appointments" = Some (VList past') /\
    past' = past ++ [appointment date comment] /\
    length past' = S (length past) /\
    (forall (i : nat) (r : value), past !! i = Some r -> past' !! i = Some r) /\
    d' !! "scheduled_appointment" = Some VNone /\
    (forall attr : string,
        attr <> "past_appointments" -> attr <> "scheduled_appointment" ->
        d' !! attr = d !! attr).
Proof.
  intros Hs _ Hp.
  eexists _, (past ++ [appointment date comment]).
  split; [apply (complete_appointment_run d date comment past Hs Hp)|].
  split; [rewrite lookup_insert_ne by discriminate; apply lookup_insert_eq|].
  split; [reflexivity|].
  split; [rewrite length_app; simpl; lia|].
  split; [intros i r Hi; apply lookup_app_l_Some; exact Hi|].
  split; [apply lookup_insert_eq|].
  intros attr Hp' Hs'. rewrite !lookup_insert_ne by congruence. reflexivity.
Qed.

(** C2. A pet whose scheduled slot is not [None]: [add_appointment] raises
    [ValueError] for every date and hands back the very same state. *)
Theorem add_appointment_conflict (d : dict) (scheduled date : value) :
  d !! "scheduled_appointment" = Some scheduled ->
  is_None scheduled = false ->
  Pet.add_appointment date d = (Raise (ValueError "Прием уже запланирован"), d).
Proof.
  intros Hs Hn. unfold Pet.add_appointment, bind.
  rewrite (getattr_plain CPet "scheduled_appointment" d scheduled) by (reflexivity || assumption).
  rewrite Hn. reflexivity.
Qed.

(** C10. A pet whose scheduled slot is [None]: [complete_appointment] does
    not raise; it files the record [{date: None, comment}] after the old
    history and the slot stays [None]. *)
Theorem complete_appointment_without_scheduled
    (d : dict) (comment : value) (past : list value) :
  d !! "scheduled_appointment" = Some VNone ->
  d !! "past_appointments" = Some (VList past) ->
  exists d' : dict,
    Pet.complete_appointment comment d = (Ok tt, d') /\
    d' !! "past_appointments" = Some (VList (past ++ [appointment VNone comment])) /\
    d' !! "scheduled_appointment" = Some VNone /\
    (forall attr : string, attr <> "past_appointments" -> d' !! attr = d !! attr).
Proof.
  intros Hs Hp. eexists.
  split; [apply (complete_appointment_run d VNone comment past Hs Hp)|].
  split; [rewrite lookup_insert_ne by discriminate; apply lookup_insert_eq|].
  split; [apply lookup_insert_eq|].
  intros attr Hp'.
  destruct (decide (attr = "scheduled_appointment")) as [->|Hne].
  - rewrite lookup_insert_eq. symmetry. exact Hs.
  - rewrite !lookup_insert_ne by congruence. reflexivity.
Qed.

Lemma complete_appointment_moves_scheduled_witness :
  rex_scheduled !! "scheduled_appointment" = Some (VStr (lit "2024-05-01")) /\
  is_None (VStr (lit "2024-05-01")) = false /\
  rex_scheduled !! "past_appointments" = Some (VList []) /\
  exists (d' : dict),
    Pet.complete_appointment (VStr (lit "healthy")) rex_scheduled = (Ok tt, d') /\
    d' !! "past_appointments" =
      Some (VList [appointment (VStr (lit "2024-05-01")) (VStr (lit "healthy"))]) /\
    d' !! "scheduled_appointment" = Some VNone.
Proof.
  split; [reflexivity|]. split; [reflexivity|]. split; [reflexivity|].
  destruct (complete_appointment_moves_scheduled rex_scheduled
              (VStr (lit "2024-05-01")) (VStr (lit "healthy")) [])
    as (d' & past' & Hrun & Hpast & -> & _ & _ & Hsched & _);
    [reflexivity | reflexivity | reflexivity |].
  exists d'. split; [exact Hrun|]. split; [exact Hpast | exact Hsched].
Defined.

Lemma add_appointment_conflict_witness :
  rex_scheduled !! "scheduled_appointment" = Some (VStr (lit "2024-05-01")) /\
  is_None (VStr (lit "2024-05-01")) = false /\
  Pet.add_appointment (VStr (lit "2024-06-01")) rex_scheduled =
    (Raise (ValueError "Прием уже запланирован"), rex_scheduled).
Proof.
  split; [reflexivity|]. split; [reflexivity|].
  apply (add_appointment_conflict rex_scheduled (VStr (lit "2024-05-01"))); reflexivity.
Defined.

Lemma complete_appointment_without_scheduled_witness :
  rex !! "scheduled_appointment" = Some VNone /\
  rex !! "past_appointments" = Some (VList []) /\
  exists d' : dict,
    Pet.complete_appointment (VStr (lit "checkup")) rex = (Ok tt, d') /\
    d' !! "past_appointments" = Some (VList [appointment VNone (VStr (lit "checkup"))]) /\
    d' !! "scheduled_appointment" = Some VNone.
Proof.
  split; [reflexivity|]. split; [reflexivity|].
  destruct (complete_appointment_without_scheduled rex (VStr (lit "checkup")) [])
    as (d' & Hrun & Hpast & Hsched & _); [reflexivity | reflexivity |].
  exists d'. split; [exact Hrun|]. split; [exact Hpast | exact Hsched].
Defined.

(** The menu handler is the caller that checks first: with nothing
    scheduled it prints its message, asks for no comment and leaves the
    pet as it is. *)
Lemma menu_guard_skips_unscheduled (d : dict) (c : Menu.console) :
  d !! "scheduled_appointment" = Some VNone ->
  Menu.complete_appointment_selected (d, c) =
    (Ok tt,
     (d, Menu.Console (Menu.stdin c)
           (Menu.stdout c ++ ["У питомца нет запланированного приема"]))).
Proof.
  intros Hs. unfold Menu.complete_appointment_selected, bind, Menu.on_pet. simpl.
  rewrite (getattr_plain CPet "scheduled_appointment" d VNone) by (reflexivity || assumption).
  reflexivity.
Qed.

(** The example of the specification: [Pet("Rex", 3)], a first
    [add_appointment], a second one that is refused, then
    [complete_appointment("healthy")]. *)
Example rex_scenario :
  Pet.new (VStr (lit "Rex")) (VInt 3) = Ok (VObj CPet rex) /\
  Pet.add_appointment (VStr (lit "2024-05-01")) rex = (Ok tt, rex_scheduled) /\
  fst (Pet.add_appointment (VStr (lit "2024-06-01")) rex_scheduled) =
    Raise (ValueError "Прием уже запланирован") /\
  snd (Pet.complete_appointment (VStr (lit "healthy")) rex_scheduled) =
    <["past_appointments" :=
        VList [appointment (VStr (lit "2024-05-01")) (VStr (lit "healthy"))]]> rex.
Proof.
  split; [vm_compute; reflexivity|].
  split; [vm_compute; reflexivity|].
  split; [vm_compute; reflexivity|].
  vm_compute; reflexivity.
Qed.

(** ** Validated fields *)

Lemma succeeds_Ok {A} (a : A) : succeeds (Ok a).
Proof. exists a. reflexivity. Qed.

Lemma succeeds_Raise {A} (e : exn) : ~ succeeds (@Raise A e).
Proof. intros [a Ha]. discriminate Ha. Qed.

Lemma raises_ValueError_intro {A} (msg : string) :
  raises_ValueError (@Raise A (ValueError msg)).
Proof. exists msg. reflexivity. Qed.

Lemma Name_set_succeeds (attr : string) (v : value) (d : dict) :
  succeeds (fst (Name.__set__ attr v d)) <->
  exists s : str, v = VStr s /\ (2 <= length (strip s))%nat.
Proof.
  unfold Name.__set__, raise, dict_setitem.
  destruct v as [ | b | z | s | xs | kv | c kv]; simpl;
    try (split; [intros H; destruct (succeeds_Raise _ H) | intros (s' & Hs & _); discriminate Hs]).
  destruct (Nat.ltb_spec (length (strip s)) 2) as [Hlt | Hge]; simpl.
  - split; [intros H; destruct (succeeds_Raise _ H)|].
    intros (s' & Hs & Hlen). injection Hs as <-. lia.
  - split; [intros _; exists s; split; [reflexivity | exact Hge] | intros _; apply succeeds_Ok].
Qed.

Lemma Name_set_rejects (attr : string) (s : str) (d : dict) :
  (length (strip s) < 2)%nat ->
  Name.__set__ attr (VStr s) d =
    (Raise (ValueError "Имя должно быть строкой длиной не менее 2 символов"), d).
Proof.
  intros Hlt. unfold Name.__set__. simpl.
  destruct (Nat.ltb_spec (length (strip s)) 2) as [_ | Hge]; [reflexivity | lia].
Qed.

Lemma Age_set_succeeds (attr : string) (v : value) (d : dict) :
  succeeds (fst (Age.__set__ attr v d)) <->
  exists z : Z, int_value v = Some z /\ 1 <= z <= 99.
Proof.
  unfold Age.__set__, raise, dict_setitem.
  destruct (int_value v) as [z|]; simpl.
  - destruct (Z.ltb_spec 0 z) as [H0 | H0]; destruct (Z.ltb_spec z 100) as [H1 | H1]; simpl;
      (split;
       [ intros H; first [destruct (succeeds_Raise _ H) | exists z; split; [reflexivity | lia]]
       | intros (z' & Hz & Hr); injection Hz as <-; first [lia | apply succeeds_Ok] ]).
  - split; [intros H; destruct (succeeds_Raise _ H) | intros (z & Hz & _); discriminate Hz].
Qed.

Lemma Age_set_rejects (attr : string) (a : Z) (d : dict) :
  a <= 0 \/ 100 <= a ->
  Age.__set__ attr (VInt a) d =
    (Raise (ValueError "Возраст должен быть числом от 1 до 99"), d).
Proof.
  intros Ha. unfold Age.__set__. simpl.
  destruct (Z.ltb_spec 0 a) as [H0 | H0]; destruct (Z.ltb_spec a 100) as [H1 | H1];
    simpl; first [reflexivity | lia].
Qed.

Lemma isdigit_forallb (s : str) :
  (10 <= length s)%nat -> isdigit s = forallb isdigit_char s.
Proof. destruct s; simpl; [lia | reflexivity]. Qed.

Lemma Phone_set_succeeds (attr : string) (v : value) (d : dict) :
  succeeds (fst (Phone.__set__ attr v d)) <->
  exists s : str,
    v = VStr s /\ forallb isdigit_char s = true /\ (length s = 10 \/ length s = 11)%nat.
Proof.
  unfold Phone.__set__, raise, dict_setitem.
  destruct v as [ | b | z | s | xs | kv | c kv]; cbn [str_value fst];
    try (split; [intros H; destruct (succeeds_Raise _ H) | intros (s' & Hs & _); discriminate Hs]).
  destruct (isdigit s) eqn:Hd;
    destruct (Nat.leb_spec 10 (length s)) as [Hlo | Hlo];
    destruct (Nat.leb_spec (length s) 11) as [Hhi | Hhi];
    cbn [negb orb andb fst];
    try (split; [intros H; destruct (succeeds_Raise _ H)|];
         intros (s' & Hs & Hd' & Hlen); injection Hs as <-;
         first [lia | rewrite isdigit_forallb in Hd by lia; congruence]).
  rewrite isdigit_forallb in Hd by lia.
  split; [intros _; exists s; repeat split; [exact Hd | lia] | intros _; apply succeeds_Ok].
Qed.

Lemma Phone_set_rejects (attr : string) (p : str) (d : dict) :
  (exists c : N, In c p /\ isdigit_char c = false) \/
  (length p <> 10 /\ length p <> 11)%nat ->
  Phone.__set__ attr (VStr p) d =
    (Raise (ValueError "Номер телефона должен содержать от 10 до 11 цифр"), d).
Proof.
  intros Hbad.
  destruct (Phone_set_cases attr (VStr p) d) as [Hok | (msg & Hraise)].
  - exfalso.
    assert (Hs : succeeds (fst (Phone.__set__ attr (VStr p) d)))
      by (rewrite Hok; apply succeeds_Ok).
    apply Phone_set_succeeds in Hs as (s & Hs & Hd & Hlen). injection Hs as <-.
    destruct Hbad as [(c & Hin & Hc) | Hlen'].
    + rewrite forallb_forall in Hd. rewrite (Hd c Hin) in Hc. discriminate Hc.
    + lia.
  - revert Hraise. unfold Phone.__set__, raise, dict_setitem. simpl.
    destruct (_ || _); [intros _; reflexivity | discriminate].
Qed.

(** *** Constructors run the validation *)

Lemma Pet_init_name_rejected (s : str) (age : value) :
  (length (strip s) < 2)%nat ->
  raises_ValueError (Pet.new (VStr s) age).
Proof.
  intros Hlt. unfold Pet.new, instantiate, Pet.__init__, bind.
  change (setattr CPet "name" (VStr s)) with (Name.__set__ "name" (VStr s)).
  rewrite (Name_set_rejects "name" s ∅ Hlt). apply raises_ValueError_intro.
Qed.

Lemma Client_init_name_rejected (s : str) (phone : value) :
  (length (strip s) < 2)%nat ->
  raises_ValueError (Client.new (VStr s) phone).
Proof.
  intros Hlt. unfold Client.new, instantiate, Client.__init__, bind.
  change (setattr CClient "name" (VStr s)) with (Name.__set__ "name" (VStr s)).
  rewrite (Name_set_rejects "name" s ∅ Hlt). apply raises_ValueError_intro.
Qed.

Lemma Pet_init_age_rejected (name : value) (a : Z) :
  a <= 0 \/ 100 <= a ->
  raises_ValueError (Pet.new name (VInt a)).
Proof.
  intros Ha. unfold Pet.new, instantiate, Pet.__init__, bind.
  change (setattr CPet "name" name) with (Name.__set__ "name" name).
  destruct (Name_set_cases "name" name ∅) as [-> | (msg & ->)];
    [|apply raises_ValueError_intro].
  change (setattr CPet "age" (VInt a)) with (Age.__set__ "age" (VInt a)).
  rewrite (Age_set_rejects "age" a _ Ha). apply raises_ValueError_intro.
Qed.

Lemma Client_init_phone_rejected (name : value) (p : str) :
  (exists c : N, In c p /\ isdigit_char c = false) \/
  (length p <> 10 /\ length p <> 11)%nat ->
  raises_ValueError (Client.new name (VStr p)).
Proof.
  intros Hp. unfold Client.new, instantiate, Client.__init__, bind.
  change (setattr CClient "name" name) with (Name.__set__ "name" name).
  destruct (Name_set_cases "name" name ∅) as [-> | (msg & ->)];
    [|apply raises_ValueError_intro].
  change (setattr CClient "phone" (VStr p)) with (Phone.__set__ "phone" (VStr p)).
  rewrite (Phone_set_rejects "phone" p _ Hp). apply raises_ValueError_intro.
Qed.

(** C4, as the code has it.  Assigning to [phone] succeeds exactly for a
    [str] of length 10 or 11 all of whose characters [str.isdigit] accepts
    (Numeric_Type Digit or Decimal: the decimal digits and, besides them,
    superscripts and the like); a string with a character that is not such
    a digit, or of another length, is refused with [ValueError], by the
    assignment and by [Client(name, p)] for every name. *)
Theorem phone_validation (v : value) (d : dict) (name : value) (p : str) :
  (succeeds (fst (setattr CClient "phone" v d)) <->
   exists s : str,
     v = VStr s /\ forallb isdigit_char s = true /\
     (length s = 10 \/ length s = 11)%nat) /\
  ((exists c : N, In c p /\ isdigit_char c = false) \/
   (length p <> 10 /\ length p <> 11)%nat ->
   raises_ValueError (fst (setattr CClient "phone" (VStr p) d)) /\
   raises_ValueError (Client.new name (VStr p))).
Proof.
  change (setattr CClient "phone") with (Phone.__set__ "phone").
  split; [apply Phone_set_succeeds|].
  intros Hp. split.
  - rewrite (Phone_set_rejects "phone" p d Hp). apply raises_ValueError_intro.
  - apply Client_init_phone_rejected. exact Hp.
Qed.

Lemma phone_validation_witness :
  ((exists c : N, In c (lit "12345") /\ isdigit_char c = false) \/
   (length (lit "12345") <> 10 /\ length (lit "12345") <> 11)%nat) /\
  raises_ValueError (Client.new (VStr (lit "Anna")) (VStr (lit "12345"))).
Proof.
  assert (H : (exists c : N, In c (lit "12345") /\ isdigit_char c = false) \/
              (length (lit "12345") <> 10 /\ length (lit "12345") <> 11)%nat)
    by (right; simpl; lia).
  split; [exact H|].
  apply (phone_validation VNone ∅ (VStr (lit "Anna")) (lit "12345")). exact H.
Defined.

(** C4 fails as stated: SUPERSCRIPT TWO is not a decimal digit
    ([str.isdecimal] is false on it), yet a phone number made of ten of
    them passes [str.isdigit], is stored, and the client is created. *)
Lemma phone_superscript_accepted :
  length superscript_phone = 10%nat /\
  forallb (fun c => negb (isdecimal_char c)) superscript_phone = true /\
  isdecimal superscript_phone = false /\
  setattr CClient "phone" (VStr superscript_phone) ∅ =
    (Ok tt, <["phone" := VStr superscript_phone]> ∅) /\
  succeeds (Client.new (VStr (lit "Anna")) (VStr superscript_phone)).
Proof.
  split; [reflexivity|]. split; [reflexivity|]. split; [reflexivity|].
  split; [reflexivity|]. eexists. vm_compute. reflexivity.
Qed.

(** The decimal digits 0-9 are among the accepted characters. *)
Lemma ascii_digit_isdigit (c : N) : (48 <= c <= 57)%N -> isdigit_char c = true.
Proof.
  intros Hc. unfold isdigit_char, isdecimal_char.
  assert (H : in_ranges c decimal_ranges = true); [|rewrite H; reflexivity].
  change decimal_ranges with ((48, 57)%N :: tl decimal_ranges).
  unfold in_ranges. cbn [existsb fst snd].
  replace (48 <=? c)%N with true by (symmetry; apply N.leb_le; lia).
  replace (c <=? 57)%N with true by (symmetry; apply N.leb_le; lia).
  reflexivity.
Qed.

(** C5. [Pet(name, a)] raises [ValueError] for every integer [a <= 0] or
    [a >= 100] whatever the name; assigning to [age] succeeds exactly for
    an [int] instance (Python counts [bool] among them, [True] being 1)
    whose value lies in 1..99. *)
Theorem age_validation (v : value) (d : dict) (name : value) (a : Z) :
  (a <= 0 \/ 100 <= a -> raises_ValueError (Pet.new name (VInt a))) /\
  (succeeds (fst (setattr CPet "age" v d)) <->
   exists z : Z, int_value v = Some z /\ 1 <= z <= 99).
Proof.
  split; [apply Pet_init_age_rejected|].
  change (setattr CPet "age") with (Age.__set__ "age"). apply Age_set_succeeds.
Qed.

Lemma age_validation_witness :
  (100 <= 0 \/ 100 <= 100) /\
  raises_ValueError (Pet.new (VStr (lit "Rex")) (VInt 100)).
Proof.
  assert (H : 100 <= 0 \/ 100 <= 100) by (right; lia).
  split; [exact H|].
  apply (age_validation VNone ∅ (VStr (lit "Rex")) 100). exact H.
Defined.

(** C6. A string whose stripped length is below 2 is refused with
    [ValueError] as the name of a [Client] or a [Pet], at construction and
    at assignment; assigning to [name] succeeds exactly for a [str] whose
    stripped length is at least 2. *)
Theorem name_validation (v : value) (d : dict) (s : str) (other : value) :
  ((length (strip s) < 2)%nat ->
   raises_ValueError (Client.new (VStr s) other) /\
   raises_ValueError (Pet.new (VStr s) other) /\
   raises_ValueError (fst (setattr CClient "name" (VStr s) d)) /\
   raises_ValueError (fst (setattr CPet "name" (VStr s) d))) /\
  (succeeds (fst (setattr CClient "name" v d)) <->
   exists s' : str, v = VStr s' /\ (2 <= length (strip s'))%nat) /\
  (succeeds (fst (setattr CPet "name" v d)) <->
   exists s' : str, v = VStr s' /\ (2 <= length (strip s'))%nat).
Proof.
  change (setattr CClient "name") with (Name.__set__ "name").
  change (setattr CPet "name") with (Name.__set__ "name").
  split; [|split; apply Name_set_succeeds].
  intros Hlt.
  split; [apply Client_init_name_rejected; exact Hlt|].
  split; [apply Pet_init_name_rejected; exact Hlt|].
  rewrite (Name_set_rejects "name" s d Hlt).
  split; apply raises_ValueError_intro.
Qed.

Lemma name_validation_witness :
  (length (strip (lit " A ")) < 2)%nat /\
  raises_ValueError (Client.new (VStr (lit " A ")) (VStr (lit "79001234567"))) /\
  raises_ValueError (Pet.new (VStr (lit " A ")) (VInt 3)).
Proof.
  assert (H : (length (strip (lit " A ")) < 2)%nat) by (vm_compute; lia).
  split; [exact H|].
  split.
  - apply (name_validation VNone ∅ (lit " A ") (VStr (lit "79001234567"))). exact H.
  - apply (name_validation VNone ∅ (lit " A ") (VInt 3)). exact H.
Defined.

(** C8. An assignment to an attribute of a [Pet] or a [Client] that raises
    does so with [ValueError] and hands back the dictionary it was given:
    the attribute still reads as the value stored before. *)
Theorem rejected_assignment_keeps_state
    (c : pyclass) (attr : string) (v old : value) (d d' : dict) (e : exn) :
  d !! attr = Some old ->
  setattr c attr v d = (Raise e, d') ->
  (exists msg : string, e = ValueError msg) /\
  d' = d /\
  getattr c attr d' = (Ok old, d).
Proof.
  intros Hold Hset.
  destruct (setattr_cases c attr v d) as [Hok | (msg & Hraise)];
    rewrite Hset in *; [discriminate Hok|].
  injection Hraise as -> ->.
  split; [exists msg; reflexivity|]. split; [reflexivity|].
  unfold getattr, Name.__get__, Age.__get__, Phone.__get__, dict_get, dict_getattr.
  destruct (class_descriptor c attr) as [[ | | ]|]; rewrite Hold; reflexivity.
Qed.

Lemma rejected_assignment_keeps_state_witness :
  rex !! "age" = Some (VInt 3) /\
  setattr CPet "age" (VInt 0) rex =
    (Raise (ValueError "Возраст должен быть числом от 1 до 99"), rex) /\
  getattr CPet "age" rex = (Ok (VInt 3), rex).
Proof.
  assert (Hset : setattr CPet "age" (VInt 0) rex =
                 (Raise (ValueError "Возраст должен быть числом от 1 до 99"), rex))
    by reflexivity.
  split; [reflexivity|]. split; [exact Hset|].
  apply (rejected_assignment_keeps_state CPet "age" (VInt 0) (VInt 3) rex rex _
           eq_refl Hset).
Defined.

(** ** Database: search by name *)

(** A client that came out of [Client(name, phone)] answers [client.name]
    with the [str] it was given. *)
Lemma Client_new_name (name phone client : value) :
  Client.new name phone = Ok client ->
  exists n : str, name = VStr n /\ client_name client = Some n.
Proof.
  unfold Client.new, instantiate, Client.__init__, bind.
  change (setattr CClient "name" name) with (Name.__set__ "name" name).
  change (setattr CClient "phone" phone) with (Phone.__set__ "phone" phone).
  pose proof (Name_set_succeeds "name" name ∅) as Hname.
  destruct (Name_set_cases "name" name ∅) as [Hn | (msg & Hn)]; rewrite Hn in *;
    [|discriminate].
  destruct (proj1 Hname (succeeds_Ok tt)) as (n & -> & _).
  destruct (Phone_set_cases "phone" phone (<["name" := VStr n]> ∅)) as [-> | (msg & ->)];
    [|discriminate].
  rewrite setattr_plain by reflexivity.
  intros [= <-]. exists n. split; reflexivity.
Qed.

Section Search.
Variable unicode_lower : str -> str.

Let lower := Database.lower unicode_lower.

Lemma name_matches_client (q n : str) (client : value) :
  client_name client = Some n ->
  Database.name_matches unicode_lower (VStr q) client =
    Ok (bool_decide (lower n = lower q)).
Proof.
  unfold client_name, Database.name_matches, result_bind.
  destruct (obj_getattr client "name") as [[ | | | s | | | ] | ]; try discriminate.
  intros [= ->]. reflexivity.
Qed.

Lemma comprehension_filter (q : str) (clients : list value) :
  Forall (fun c => is_Some (client_name c)) clients ->
  Database.comprehension unicode_lower (VStr q) clients =
    Ok (filter (fun c => lower <$> client_name c = Some (lower q)) clients).
Proof.
  induction 1 as [ | client rest [n Hn] _ IH]; [reflexivity|].
  cbn [Database.comprehension].
  rewrite (name_matches_client q n client Hn), IH. cbn [result_bind].
  rewrite filter_cons, Hn. cbn [fmap option_fmap option_map].
  destruct (decide (lower n = lower q)) as [Heq | Hne].
  - rewrite bool_decide_eq_true_2 by exact Heq.
    rewrite decide_True by (rewrite Heq; reflexivity). reflexivity.
  - rewrite bool_decide_eq_false_2 by exact Hne.
    rewrite decide_False by (intros [= Heq]; contradiction). reflexivity.
Qed.

(** The result depends on the query only through its lowercase form. *)
Lemma name_matches_lower (q q' : str) (client : value) :
  lower q' = lower q ->
  Database.name_matches unicode_lower (VStr q') client =
    Database.name_matches unicode_lower (VStr q) client.
Proof.
  intros Hq. unfold Database.name_matches, Database.str_lower.
  fold lower. rewrite Hq. reflexivity.
Qed.

Lemma comprehension_lower (q q' : str) (clients : list value) :
  lower q' = lower q ->
  Database.comprehension unicode_lower (VStr q') clients =
    Database.comprehension unicode_lower (VStr q) clients.
Proof.
  intros Hq. induction clients as [ | client rest IH]; [reflexivity|].
  cbn [Database.comprehension]. rewrite (name_matches_lower q q' client Hq), IH.
  reflexivity.
Qed.

Lemma find_clients_by_name_lower {blob : Type} (q q' : str) (w : @Database.world blob) :
  lower q' = lower q ->
  Database.find_clients_by_name unicode_lower (VStr q') w =
    Database.find_clients_by_name unicode_lower (VStr q) w.
Proof.
  intros Hq. unfold Database.find_clients_by_name, bind.
  destruct (Database.on_self (getattr CDatabase "clients") w) as [[[ | | | | xs | | ] | e] w'];
    try reflexivity.
  unfold lift. rewrite (comprehension_lower q q' xs Hq). reflexivity.
Qed.

Lemma lower_Anna : lower (lit "Anna") = lower (lit "ANNA").
Proof. reflexivity. Qed.
End Search.

(** C7. On a store whose clients all carry a [str] name,
    [find_clients_by_name] returns, in the order of the store, exactly the
    clients whose lowercased name equals the lowercased query, and leaves
    the store alone; two queries with the same lowercase form, such as
    "Anna" and "ANNA", get the same answer. *)
Theorem find_clients_by_name_case_insensitive
    {blob : Type} (unicode_lower : str -> str)
    (w : @Database.world blob) (clients : list value) (q q' : str) :
  fst w !! "clients" = Some (VList clients) ->
  Forall (fun c => is_Some (client_name c)) clients ->
  Database.find_clients_by_name unicode_lower (VStr q) w =
    (Ok (VList (filter
                  (fun c => Database.lower unicode_lower <$> client_name c =
                            Some (Database.lower unicode_lower q))
                  clients)), w) /\
  (Database.lower unicode_lower q' = Database.lower unicode_lower q ->
   Database.find_clients_by_name unicode_lower (VStr q') w =
     Database.find_clients_by_name unicode_lower (VStr q) w) /\
  Database.find_clients_by_name unicode_lower (VStr (lit "Anna")) w =
    Database.find_clients_by_name unicode_lower (VStr (lit "ANNA")) w.
Proof.
  intros Hc Hnames. split; [|split].
  - unfold Database.find_clients_by_name, bind, Database.on_self.
    rewrite (getattr_plain CDatabase "clients" (fst w) (VList clients)) by (reflexivity || assumption).
    unfold lift. rewrite (comprehension_filter unicode_lower q clients Hnames).
    destruct w. reflexivity.
  - apply find_clients_by_name_lower.
  - apply find_clients_by_name_lower. apply lower_Anna.
Qed.

Lemma find_clients_by_name_case_insensitive_witness :
  clinic !! "clients" = Some (VList [anna; boris; anna_upper]) /\
  Forall (fun c => is_Some (client_name c)) [anna; boris; anna_upper] /\
  Database.find_clients_by_name (blob := unit) id (VStr (lit "aNNa")) (clinic, ∅) =
    (Ok (VList [anna; anna_upper]), (clinic, ∅)).
Proof.
  assert (Hn : Forall (fun c => is_Some (client_name c)) [anna; boris; anna_upper])
    by (repeat constructor; eexists; reflexivity).
  split; [reflexivity|]. split; [exact Hn|].
  destruct (find_clients_by_name_case_insensitive (blob := unit) id (clinic, ∅)
              [anna; boris; anna_upper] (lit "aNNa") (lit "aNNa") eq_refl Hn)
    as (Hfind & _ & _).
  rewrite Hfind. reflexivity.
Defined.

(** ** Database: persistence *)

Section Persistence.
Context {blob : Type}.
Variable os_refuses : bool -> str -> gmap str (file blob) -> option exn.
Variable pickle_dumps : value -> blob.
Variable pickle_loads : blob -> result value.

Lemma save_run (d : dict) (disk : gmap str (file blob)) (path : str) (clients : value) :
  d !! "filename" = Some (VStr path) ->
  d !! "clients" = Some clients ->
  Database.refusal os_refuses true path disk = None ->
  Database.save pickle_dumps os_refuses (d, disk) =
    (Ok tt, (d, <[path := Data (pickle_dumps clients)]> disk)).
Proof.
  intros Hf Hc Hw. unfold Database.save, bind, Database.on_self. cbn [fst snd].
  rewrite (getattr_plain CDatabase "filename" d (VStr path)) by (reflexivity || assumption).
  unfold Database.open_wb. cbn [fst snd]. rewrite Hw. cbn [fst snd].
  rewrite (getattr_plain CDatabase "clients" d clients) by (reflexivity || assumption).
  unfold Database.pickle_dump. cbn [fst snd].
  rewrite insert_insert_eq. reflexivity.
Qed.



Lemma load_run (d : dict) (disk : gmap str (file blob)) (path : str) (b : blob) (v : value) :
  d !! "filename" = Some (VStr path) ->
  Database.refusal os_refuses false path disk = None ->
  disk !! path = Some (Data b) ->
  pickle_loads b = Ok v ->
  Database.load pickle_loads os_refuses (d, disk) = (Ok tt, (<["clients" := v]> d, disk)).
Proof.
  intros Hf Hr Hb Hv. unfold Database.load, try_except, bind, Database.on_self. cbn [fst snd].
  rewrite (getattr_plain CDatabase "filename" d (VStr path)) by (reflexivity || assumption).
  unfold Database.open_rb, Database.pickle_load. cbn [fst snd].
  rewrite Hr, Hb. cbn [fst snd]. rewrite Hb, Hv.
  rewrite setattr_plain by reflexivity. reflexivity.
Qed.

Lemma load_not_found (d : dict) (disk : gmap str (file blob)) (path : str) :
  d !! "filename" = Some (VStr path) ->
  Database.refusal os_refuses false path disk = Some FileNotFoundError \/
  (Database.refusal os_refuses false path disk = None /\ disk !! path = None) ->
  Database.load pickle_loads os_refuses (d, disk) =
    (Ok tt, (<["clients" := VList []]> d, disk)).
Proof.
  intros Hf Hopen. unfold Database.load, try_except, bind, Database.on_self. cbn [fst snd].
  rewrite (getattr_plain CDatabase "filename" d (VStr path)) by (reflexivity || assumption).
  unfold Database.open_rb. cbn [fst snd].
  destruct Hopen as [Hr | [Hr Hb]]; rewrite Hr; [|rewrite Hb];
    rewrite setattr_plain by reflexivity; reflexivity.
Qed.

Lemma load_refused (d : dict) (disk : gmap str (file blob)) (path : str) (e : exn) :
  d !! "filename" = Some (VStr path) ->
  Database.refusal os_refuses false path disk = Some e ->
  e <> FileNotFoundError ->
  Database.load pickle_loads os_refuses (d, disk) = (Raise e, (d, disk)).
Proof.
  intros Hf Hr He. unfold Database.load, try_except, bind, Database.on_self. cbn [fst snd].
  rewrite (getattr_plain CDatabase "filename" d (VStr path)) by (reflexivity || assumption).
  unfold Database.open_rb. cbn [fst snd]. rewrite Hr.
  destruct e; try reflexivity. contradiction.
Qed.

(** [Database(path)] on a fresh instance: both attributes are set, then
    [load] runs. *)
Lemma init_run (disk : gmap str (file blob)) (path : str) :
  Database.__init__ pickle_loads os_refuses (VStr path) (∅, disk) =
    Database.load pickle_loads os_refuses
      (<["clients" := VList []]> (<["filename" := VStr path]> ∅), disk).
Proof. reflexivity. Qed.
End Persistence.

Lemma fresh_database_filename (path : str) :
  (<["clients" := VList []]> (<["filename" := VStr path]> (∅ : dict)))
    !! "filename" = Some (VStr path).
Proof. rewrite lookup_insert_ne by discriminate. apply lookup_insert_eq. Qed.




(** C9, as the code has it.  When opening the store's file is answered
    with [FileNotFoundError], because the path is let through and no
    file is there or because the name is empty or a directory on the way
    is missing, [load] returns normally with [clients] set to the empty
    list, and so does the constructor [Database(path)]; the disk is not
    touched.  When the location is absent for a reason [open] reports
    with another exception, that exception leaves [load] and [clients]
    is as it was. *)
Theorem load_missing_file
    {blob : Type} (os_refuses : bool -> str -> gmap str (file blob) -> option exn)
    (pickle_loads : blob -> result value)
    (d : dict) (disk : gmap str (file blob)) (path : str) (e : exn) :
  d !! "filename" = Some (VStr path) ->
  (Database.refusal os_refuses false path disk = Some FileNotFoundError \/
   (Database.refusal os_refuses false path disk = None /\ disk !! path = None) ->
   Database.load pickle_loads os_refuses (d, disk) =
     (Ok tt, (<["clients" := VList []]> d, disk)) /\
   Database.__init__ pickle_loads os_refuses (VStr path) (∅, disk) =
     (Ok tt, (<["clients" := VList []]> (<["filename" := VStr path]> ∅), disk))) /\
  (Database.refusal os_refuses false path disk = Some e ->
   e <> FileNotFoundError ->
   Database.load pickle_loads os_refuses (d, disk) = (Raise e, (d, disk))).
Proof.
  intros Hf. split.
  - intros Hopen. split; [apply (load_not_found os_refuses pickle_loads d disk path Hf Hopen)|].
    rewrite init_run.
    rewrite (load_not_found os_refuses pickle_loads _ disk path
               (fresh_database_filename path) Hopen).
    rewrite insert_insert_eq. reflexivity.
  - apply (load_refused os_refuses pickle_loads d disk path e Hf).
Qed.

Lemma load_missing_file_witness :
  clinic !! "filename" = Some (VStr (lit "database.pkl")) /\
  Database.refusal (blob := value) no_refusals false (lit "database.pkl") ∅ = None /\
  (∅ : gmap str (file value)) !! lit "database.pkl" = None /\
  Database.load Ok no_refusals (clinic, ∅) = (Ok tt, (<["clients" := VList []]> clinic, ∅)).
Proof.
  split; [reflexivity|]. split; [reflexivity|]. split; [apply lookup_empty|].
  destruct (load_missing_file (blob := value) no_refusals Ok clinic ∅ (lit "database.pkl")
              EOFError eq_refl) as [Hmissing _].
  apply Hmissing. right. split; [reflexivity | apply lookup_empty].
Defined.

(** C9 fails as stated.  No file exists under a name with a NUL character
    in it, on no disk; [load] then raises the [ValueError] of [open]
    instead of starting from the empty list, and [clients] is as it
    was. *)
Lemma load_nul_name_raises :
  nul_named !! "filename" = Some (VStr nul_name) /\
  (∅ : gmap str (file value)) !! nul_name = None /\
  Database.load Ok no_refusals (nul_named, ∅) =
    (Raise (ValueError "embedded null byte"), (nul_named, ∅)).
Proof.
  split; [reflexivity|]. split; [apply lookup_empty|].
  apply (load_refused no_refusals Ok nul_named ∅ nul_name); [reflexivity | reflexivity|].
  discriminate.
Qed.

(** ** Reachable states

    The hypotheses of the statements about pets and about the search hold
    of every object the program builds: constructors establish them and
    the methods keep them. *)

Lemma Pet_new_state (name age pet : value) :
  Pet.new name age = Ok pet ->
  exists d : dict,
    pet = VObj CPet d /\ pet_state d /\
    d !! "scheduled_appointment" = Some VNone /\
    d !! "past_appointments" = Some (VList []).
Proof.
  unfold Pet.new, instantiate, Pet.__init__, bind.
  change (setattr CPet "name" name) with (Name.__set__ "name" name).
  change (setattr CPet "age" age) with (Age.__set__ "age" age).
  destruct (Name_set_cases "name" name ∅) as [-> | (msg & ->)]; [|discriminate].
  destruct (Age_set_cases "age" age (<["name" := name]> ∅)) as [-> | (msg & ->)];
    [|discriminate].
  rewrite !setattr_plain by reflexivity.
  intros [= <-]. eexists. split; [reflexivity|].
  assert (Hs : forall d : dict,
             (<["past_appointments" := VList []]>
                (<["scheduled_appointment" := VNone]> d))
               !! "scheduled_appointment" = Some VNone)
    by (intros d; rewrite lookup_insert_ne by discriminate; apply lookup_insert_eq).
  split; [split|split].
  - rewrite Hs. eexists. reflexivity.
  - exists []. apply lookup_insert_eq.
  - apply Hs.
  - apply lookup_insert_eq.
Qed.

Lemma add_appointment_keeps_pet_state (date : value) (d : dict) :
  pet_state d -> pet_state (snd (Pet.add_appointment date d)).
Proof.
  intros [[scheduled Hs] [past Hp]]. unfold Pet.add_appointment, bind.
  rewrite (getattr_plain CPet "scheduled_appointment" d scheduled) by (reflexivity || assumption).
  destruct (negb (is_None scheduled)); cbn [raise snd].
  - split; [eexists; exact Hs | exists past; exact Hp].
  - rewrite setattr_plain by reflexivity. cbn [snd]. split.
    + rewrite lookup_insert_eq. eexists. reflexivity.
    + exists past. rewrite lookup_insert_ne by discriminate. exact Hp.
Qed.

Lemma complete_appointment_keeps_pet_state (comment : value) (d : dict) :
  pet_state d -> pet_state (snd (Pet.complete_appointment comment d)).
Proof.
  intros [[scheduled Hs] [past Hp]].
  rewrite (complete_appointment_run d scheduled comment past Hs Hp). cbn [snd]. split.
  - rewrite lookup_insert_eq. eexists. reflexivity.
  - eexists. rewrite lookup_insert_ne by discriminate. apply lookup_insert_eq.
Qed.

(** Whatever is assigned to a client's attributes afterwards, [name] keeps
    holding a [str]: a new name passes [Name.__set__] or is refused. *)
Lemma setattr_keeps_client_name (attr : string) (v : value) (d : dict) :
  is_Some (client_name (VObj CClient d)) ->
  is_Some (client_name (VObj CClient (snd (setattr CClient attr v d)))).
Proof.
  intros Hn.
  destruct (setattr_cases CClient attr v d) as [Hok | (msg & Hraise)];
    [|rewrite Hraise; exact Hn].
  rewrite Hok. cbn [snd].
  destruct (decide (attr = "name")) as [-> | Hne].
  - assert (Hs : succeeds (fst (Name.__set__ "name" v d)))
      by (change (Name.__set__ "name") with (setattr CClient "name");
          rewrite Hok; apply succeeds_Ok).
    apply Name_set_succeeds in Hs as (s & -> & _).
    unfold client_name, obj_getattr.
    change (getattr CClient "name") with (dict_get "name").
    unfold dict_get. rewrite lookup_insert_eq. eexists. reflexivity.
  - revert Hn. unfold client_name, obj_getattr.
    change (getattr CClient "name") with (dict_get "name").
    unfold dict_get. rewrite lookup_insert_ne by exact Hne. exact id.
Qed.

(** * Further properties of the code *)

(** ** Descriptors: the two outcomes, with their messages *)

Lemma Name_set_valid (attr : string) (v : value) (d : dict) :
  valid_name v -> Name.__set__ attr v d = (Ok tt, <[attr := v]> d).
Proof.
  intros Hv. destruct (Name_set_cases attr v d) as [Hok | (msg & Hraise)]; [exact Hok|].
  apply (Name_set_succeeds attr v d) in Hv. rewrite Hraise in Hv.
  destruct (succeeds_Raise _ Hv).
Qed.

Lemma Name_set_invalid (attr : string) (v : value) (d : dict) :
  ~ valid_name v -> Name.__set__ attr v d = (Raise name_error, d).
Proof.
  intros Hv. unfold Name.__set__, raise, dict_setitem, name_error.
  destruct (str_value v) as [s|] eqn:Hs; [|reflexivity].
  destruct (Nat.ltb_spec (length (strip s)) 2) as [_ | Hge]; [reflexivity|].
  exfalso. apply Hv. exists s. split; [|exact Hge].
  destruct v; try discriminate Hs. injection Hs as ->. reflexivity.
Qed.

Lemma Age_set_valid (attr : string) (v : value) (d : dict) :
  valid_age v -> Age.__set__ attr v d = (Ok tt, <[attr := v]> d).
Proof.
  intros Hv. destruct (Age_set_cases attr v d) as [Hok | (msg & Hraise)]; [exact Hok|].
  apply (Age_set_succeeds attr v d) in Hv. rewrite Hraise in Hv.
  destruct (succeeds_Raise _ Hv).
Qed.

Lemma Age_set_invalid (attr : string) (v : value) (d : dict) :
  ~ valid_age v -> Age.__set__ attr v d = (Raise age_error, d).
Proof.
  intros Hv. unfold Age.__set__, raise, dict_setitem, age_error.
  destruct (int_value v) as [z|] eqn:Hz; [|reflexivity].
  destruct (Z.ltb_spec 0 z) as [H0 | H0]; destruct (Z.ltb_spec z 100) as [H1 | H1];
    cbn [andb negb]; try reflexivity.
  exfalso. apply Hv. exists z. split; [exact Hz | lia].
Qed.

Lemma Phone_set_valid (attr : string) (v : value) (d : dict) :
  valid_phone v -> Phone.__set__ attr v d = (Ok tt, <[attr := v]> d).
Proof.
  intros Hv. destruct (Phone_set_cases attr v d) as [Hok | (msg & Hraise)]; [exact Hok|].
  apply (Phone_set_succeeds attr v d) in Hv. rewrite Hraise in Hv.
  destruct (succeeds_Raise _ Hv).
Qed.

Lemma Phone_set_invalid (attr : string) (v : value) (d : dict) :
  ~ valid_phone v -> Phone.__set__ attr v d = (Raise phone_error, d).
Proof.
  intros Hv.
  destruct (Phone_set_cases attr v d) as [Hok | (msg & Hraise)].
  - exfalso. apply Hv. apply (Phone_set_succeeds attr v d). rewrite Hok. apply succeeds_Ok.
  - revert Hraise. unfold Phone.__set__, raise, dict_setitem, phone_error.
    destruct (str_value v) as [s|]; [destruct (_ || _)|]; first [discriminate | reflexivity].
Qed.

(** ** Pet: how the appointment methods compose *)

Lemma add_appointment_run (d : dict) (date : value) :
  d !! "scheduled_appointment" = Some VNone ->
  Pet.add_appointment date d = (Ok tt, <["scheduled_appointment" := date]> d).
Proof.
  intros Hs. unfold Pet.add_appointment, bind.
  rewrite (getattr_plain CPet "scheduled_appointment" d VNone) by (reflexivity || assumption).
  cbn [is_None negb]. apply setattr_plain. reflexivity.
Qed.

Lemma add_appointment_state (d : dict) (date : value) :
  is_Some (d !! "scheduled_appointment") ->
  snd (Pet.add_appointment date d) = d \/
  snd (Pet.add_appointment date d) = <["scheduled_appointment" := date]> d.
Proof.
  intros [scheduled Hs]. unfold Pet.add_appointment, bind.
  rewrite (getattr_plain CPet "scheduled_appointment" d scheduled) by (reflexivity || assumption).
  destruct (negb (is_None scheduled)); [left; reflexivity|].
  right. rewrite setattr_plain by reflexivity. reflexivity.
Qed.

Lemma add_appointment_conflict_run (d : dict) (scheduled date : value) :
  d !! "scheduled_appointment" = Some scheduled ->
  is_None scheduled = false ->
  Pet.add_appointment date d = (Raise (ValueError "Прием уже запланирован"), d).
Proof.
  intros Hs Hn. unfold Pet.add_appointment, bind.
  rewrite (getattr_plain CPet "scheduled_appointment" d scheduled) by (reflexivity || assumption).
  rewrite Hn. reflexivity.
Qed.

(** X1. On a pet with a free slot, scheduling a date and then completing
    with a comment amounts to exactly one thing: the record of that date
    and comment is appended to the history.  The slot is free again and
    every other attribute is as before, so the cycle can be repeated. *)
Theorem schedule_then_complete (d : dict) (date comment : value) (past : list value) :
  d !! "scheduled_appointment" = Some VNone ->
  d !! "past_appointments" = Some (VList past) ->
  (Pet.add_appointment date ;; Pet.complete_appointment comment) d =
    (Ok tt, <["past_appointments" := VList (past ++ [appointment date comment])]> d).
Proof.
  intros Hs Hp. unfold bind at 1. rewrite (add_appointment_run d date Hs).
  rewrite (complete_appointment_run _ date comment past);
    [ | apply lookup_insert_eq | rewrite lookup_insert_ne by discriminate; exact Hp].
  f_equal.
  rewrite (insert_insert_ne _ "scheduled_appointment" "past_appointments") by discriminate.
  rewrite insert_insert_eq. f_equal. apply insert_id. exact Hs.
Qed.

Lemma schedule_then_complete_witness :
  rex !! "scheduled_appointment" = Some VNone /\
  rex !! "past_appointments" = Some (VList []) /\
  (Pet.add_appointment (VStr (lit "2024-05-01")) ;;
   Pet.complete_appointment (VStr (lit "healthy"))) rex =
    (Ok tt,
     <["past_appointments" :=
         VList [appointment (VStr (lit "2024-05-01")) (VStr (lit "healthy"))]]> rex).
Proof.
  split; [reflexivity|]. split; [reflexivity|].
  apply (schedule_then_complete rex (VStr (lit "2024-05-01")) (VStr (lit "healthy")) []);
    reflexivity.
Defined.

(** X2. The history is append-only.  Whatever appointment calls are made
    on a pet, and whether they return or raise, the history afterwards is
    the old history followed by one record per [complete_appointment]
    call, and the pet's name and age are untouched. *)
Theorem history_append_only (cs : list pet_call) (d : dict) (past : list value) :
  is_Some (d !! "scheduled_appointment") ->
  d !! "past_appointments" = Some (VList past) ->
  exists more : list value,
    run_calls cs d !! "past_appointments" = Some (VList (past ++ more)) /\
    length more = length (List.filter is_complete cs) /\
    run_calls cs d !! "name" = d !! "name" /\
    run_calls cs d !! "age" = d !! "age".
Proof.
  revert d past.
  induction cs as [ | [date | comment] cs IH]; intros d past Hs Hp.
  - exists []. rewrite app_nil_r. repeat split; assumption.
  - cbn [run_calls run_call List.filter is_complete].
    destruct (add_appointment_state d date Hs) as [-> | ->]; [apply IH; assumption|].
    destruct (IH (<["scheduled_appointment" := date]> d) past) as (more & H1 & H2 & H3 & H4).
    + rewrite lookup_insert_eq. eexists. reflexivity.
    + rewrite lookup_insert_ne by discriminate. exact Hp.
    + exists more. rewrite !lookup_insert_ne in * by discriminate. repeat split; assumption.
  - cbn [run_calls run_call List.filter is_complete].
    destruct Hs as [scheduled Hs].
    rewrite (complete_appointment_run d scheduled comment past Hs Hp). cbn [snd].
    destruct (IH (<["scheduled_appointment" := VNone]>
                    (<["past_appointments" :=
                         VList (past ++ [appointment scheduled comment])]> d))
                (past ++ [appointment scheduled comment]))
      as (more & H1 & H2 & H3 & H4).
    + rewrite lookup_insert_eq. eexists. reflexivity.
    + rewrite lookup_insert_ne by discriminate. apply lookup_insert_eq.
    + exists (appointment scheduled comment :: more).
      rewrite !lookup_insert_ne in * by discriminate.
      split; [rewrite H1, <- app_assoc; reflexivity|].
      split; [cbn [length]; rewrite H2; reflexivity|].
      split; assumption.
Qed.

Lemma history_append_only_witness :
  is_Some (rex_scheduled !! "scheduled_appointment") /\
  rex_scheduled !! "past_appointments" = Some (VList []) /\
  exists more : list value,
    run_calls [CallAdd (VStr (lit "2024-06-01")); CallComplete (VStr (lit "healthy"));
               CallComplete (VStr (lit "again"))] rex_scheduled
      !! "past_appointments" = Some (VList more) /\
    length more = 2%nat.
Proof.
  assert (Hs : is_Some (rex_scheduled !! "scheduled_appointment"))
    by (eexists; reflexivity).
  split; [exact Hs|]. split; [reflexivity|].
  destruct (history_append_only
              [CallAdd (VStr (lit "2024-06-01")); CallComplete (VStr (lit "healthy"));
               CallComplete (VStr (lit "again"))] rex_scheduled [] Hs eq_refl)
    as (more & H1 & H2 & _).
  exists more. split; [exact H1 | exact H2].
Defined.

(** ** Constructors *)

Lemma Pet_new_valid (name age : value) :
  valid_name name -> valid_age age ->
  Pet.new name age =
    Ok (VObj CPet
          (<["past_appointments" := VList []]>
             (<["scheduled_appointment" := VNone]>
                (<["age" := age]> (<["name" := name]> ∅))))).
Proof.
  intros Hn Ha. unfold Pet.new, instantiate, Pet.__init__, bind.
  change (setattr CPet "name" name) with (Name.__set__ "name" name).
  change (setattr CPet "age" age) with (Age.__set__ "age" age).
  rewrite (Name_set_valid "name" name ∅ Hn), (Age_set_valid "age" age _ Ha).
  rewrite !setattr_plain by reflexivity. reflexivity.
Qed.

Lemma Client_new_valid (name phone : value) :
  valid_name name -> valid_phone phone ->
  Client.new name phone =
    Ok (VObj CClient
          (<["pets" := VList []]> (<["phone" := phone]> (<["name" := name]> ∅)))).
Proof.
  intros Hn Hp. unfold Client.new, instantiate, Client.__init__, bind.
  change (setattr CClient "name" name) with (Name.__set__ "name" name).
  change (setattr CClient "phone" phone) with (Phone.__set__ "phone" phone).
  rewrite (Name_set_valid "name" name ∅ Hn), (Phone_set_valid "phone" phone _ Hp).
  rewrite !setattr_plain by reflexivity. reflexivity.
Qed.

Lemma Pet_new_name_invalid (name age : value) :
  ~ valid_name name -> Pet.new name age = Raise name_error.
Proof.
  intros Hn. unfold Pet.new, instantiate, Pet.__init__, bind.
  change (setattr CPet "name" name) with (Name.__set__ "name" name).
  rewrite (Name_set_invalid "name" name ∅ Hn). reflexivity.
Qed.

Lemma Client_new_name_invalid (name phone : value) :
  ~ valid_name name -> Client.new name phone = Raise name_error.
Proof.
  intros Hn. unfold Client.new, instantiate, Client.__init__, bind.
  change (setattr CClient "name" name) with (Name.__set__ "name" name).
  rewrite (Name_set_invalid "name" name ∅ Hn). reflexivity.
Qed.

Lemma Pet_new_age_invalid (name age : value) :
  valid_name name -> ~ valid_age age -> Pet.new name age = Raise age_error.
Proof.
  intros Hn Ha. unfold Pet.new, instantiate, Pet.__init__, bind.
  change (setattr CPet "name" name) with (Name.__set__ "name" name).
  change (setattr CPet "age" age) with (Age.__set__ "age" age).
  rewrite (Name_set_valid "name" name ∅ Hn), (Age_set_invalid "age" age _ Ha). reflexivity.
Qed.

Lemma Client_new_phone_invalid (name phone : value) :
  valid_name name -> ~ valid_phone phone -> Client.new name phone = Raise phone_error.
Proof.
  intros Hn Hp. unfold Client.new, instantiate, Client.__init__, bind.
  change (setattr CClient "name" name) with (Name.__set__ "name" name).
  change (setattr CClient "phone" phone) with (Phone.__set__ "phone" phone).
  rewrite (Name_set_valid "name" name ∅ Hn), (Phone_set_invalid "phone" phone _ Hp).
  reflexivity.
Qed.

(** The outcome of [Name.__set__] decides validity. *)
Lemma valid_name_dec (v : value) : valid_name v \/ ~ valid_name v.
Proof.
  destruct (Name_set_cases "name" v ∅) as [Hok | (msg & Hraise)].
  - left. apply (Name_set_succeeds "name" v ∅). rewrite Hok. apply succeeds_Ok.
  - right. intros Hv. apply (Name_set_succeeds "name" v ∅) in Hv.
    rewrite Hraise in Hv. destruct (succeeds_Raise _ Hv).
Qed.

Lemma valid_age_dec (v : value) : valid_age v \/ ~ valid_age v.
Proof.
  destruct (Age_set_cases "age" v ∅) as [Hok | (msg & Hraise)].
  - left. apply (Age_set_succeeds "age" v ∅). rewrite Hok. apply succeeds_Ok.
  - right. intros Hv. apply (Age_set_succeeds "age" v ∅) in Hv.
    rewrite Hraise in Hv. destruct (succeeds_Raise _ Hv).
Qed.

Lemma valid_phone_dec (v : value) : valid_phone v \/ ~ valid_phone v.
Proof.
  destruct (Phone_set_cases "phone" v ∅) as [Hok | (msg & Hraise)].
  - left. apply (Phone_set_succeeds "phone" v ∅). rewrite Hok. apply succeeds_Ok.
  - right. intros Hv. apply (Phone_set_succeeds "phone" v ∅) in Hv.
    rewrite Hraise in Hv. destruct (succeeds_Raise _ Hv).
Qed.

(** X3. [Pet(name, age)] returns a pet exactly when the name is a [str]
    of stripped length at least 2 and the age an [int] in 1..99, and the
    pet it returns holds the two values as given (the name unstripped),
    no scheduled appointment and an empty history. *)
Theorem Pet_new_succeeds_iff (name age pet : value) :
  Pet.new name age = Ok pet <->
  valid_name name /\ valid_age age /\
  pet = VObj CPet
          (<["past_appointments" := VList []]>
             (<["scheduled_appointment" := VNone]>
                (<["age" := age]> (<["name" := name]> ∅)))).
Proof.
  split.
  - intros Hnew.
    destruct (valid_name_dec name) as [Hn | Hn];
      [|rewrite (Pet_new_name_invalid name age Hn) in Hnew; discriminate Hnew].
    destruct (valid_age_dec age) as [Ha | Ha];
      [|rewrite (Pet_new_age_invalid name age Hn Ha) in Hnew; discriminate Hnew].
    rewrite (Pet_new_valid name age Hn Ha) in Hnew. injection Hnew as <-.
    repeat split; assumption.
  - intros (Hn & Ha & ->). apply Pet_new_valid; assumption.
Qed.

(** X4. [Client(name, phone)] returns a client exactly when the name is
    accepted by [Name] and the phone by [Phone], and the client it
    returns holds both values as given and an empty list of pets. *)
Theorem Client_new_succeeds_iff (name phone client : value) :
  Client.new name phone = Ok client <->
  valid_name name /\ valid_phone phone /\
  client = VObj CClient
             (<["pets" := VList []]> (<["phone" := phone]> (<["name" := name]> ∅))).
Proof.
  split.
  - intros Hnew.
    destruct (valid_name_dec name) as [Hn | Hn];
      [|rewrite (Client_new_name_invalid name phone Hn) in Hnew; discriminate Hnew].
    destruct (valid_phone_dec phone) as [Hp | Hp];
      [|rewrite (Client_new_phone_invalid name phone Hn Hp) in Hnew; discriminate Hnew].
    rewrite (Client_new_valid name phone Hn Hp) in Hnew. injection Hnew as <-.
    repeat split; assumption.
  - intros (Hn & Hp & ->). apply Client_new_valid; assumption.
Qed.

(** X5. A constructor reports the first field that fails, in the order
    of its assignments: with a refused name the error is the name's
    whatever the second argument is, and the phone's or the age's error
    is raised only when the name was accepted. *)
Theorem constructor_reports_first_invalid_field (name other : value) :
  (~ valid_name name ->
   Client.new name other = Raise name_error /\ Pet.new name other = Raise name_error) /\
  (valid_name name -> ~ valid_phone other -> Client.new name other = Raise phone_error) /\
  (valid_name name -> ~ valid_age other -> Pet.new name other = Raise age_error).
Proof.
  split; [|split].
  - intros Hn. split; [apply Client_new_name_invalid | apply Pet_new_name_invalid]; exact Hn.
  - apply Client_new_phone_invalid.
  - apply Pet_new_age_invalid.
Qed.

Lemma short_name_not_valid (s : str) :
  (length (strip s) <? 2)%nat = true -> ~ valid_name (VStr s).
Proof.
  intros Hlt (s' & Hs & Hlen). injection Hs as <-.
  apply Nat.ltb_lt in Hlt. lia.
Qed.

Lemma constructor_reports_first_invalid_field_witness :
  ~ valid_name (VStr (lit "A")) /\
  Client.new (VStr (lit "A")) (VStr (lit "12345")) = Raise name_error.
Proof.
  assert (H : ~ valid_name (VStr (lit "A"))) by (apply short_name_not_valid; reflexivity).
  split; [exact H|].
  apply (constructor_reports_first_invalid_field (VStr (lit "A")) (VStr (lit "12345"))).
  exact H.
Defined.

(** ** Attributes as a store *)

Lemma getattr_state (c : pyclass) (attr : string) (d : dict) :
  snd (getattr c attr d) = d.
Proof.
  unfold getattr, Name.__get__, Age.__get__, Phone.__get__, dict_get, dict_getattr.
  destruct (class_descriptor c attr) as [[ | | ]|]; try reflexivity.
  destruct (d !! attr); reflexivity.
Qed.

Lemma getattr_lookup (c : pyclass) (attr : string) (d1 d2 : dict) :
  d1 !! attr = d2 !! attr -> fst (getattr c attr d1) = fst (getattr c attr d2).
Proof.
  intros Heq.
  unfold getattr, Name.__get__, Age.__get__, Phone.__get__, dict_get, dict_getattr.
  destruct (class_descriptor c attr) as [[ | | ]|]; cbn [fst]; rewrite Heq; try reflexivity.
  destruct (d2 !! attr); reflexivity.
Qed.

Lemma getattr_stored (c : pyclass) (attr : string) (v : value) (d : dict) :
  d !! attr = Some v -> getattr c attr d = (Ok v, d).
Proof.
  intros Hv.
  unfold getattr, Name.__get__, Age.__get__, Phone.__get__, dict_get, dict_getattr.
  destruct (class_descriptor c attr) as [[ | | ]|]; rewrite Hv; reflexivity.
Qed.

(** X6. The attributes the program stores on its objects ([name], [age],
    [phone], [scheduled_appointment], [past_appointments], [pets],
    [filename], [clients]) behave as a store under the descriptors: after
    an assignment to one of them that returned, reading it gives back the
    very value assigned, and reading any other of them gives what it gave
    before the assignment. *)
Theorem setattr_then_getattr
    (c : pyclass) (attr other : string) (v : value) (d d' : dict) :
  stored_attribute attr = true ->
  setattr c attr v d = (Ok tt, d') ->
  getattr c attr d' = (Ok v, d') /\
  (stored_attribute other = true -> other <> attr ->
   fst (getattr c other d') = fst (getattr c other d)).
Proof.
  intros _ Hset.
  destruct (setattr_cases c attr v d) as [Hok | (msg & Hraise)];
    rewrite Hset in *; [|discriminate Hraise].
  injection Hok as ->. split.
  - apply getattr_stored. apply lookup_insert_eq.
  - intros _ Hne. apply getattr_lookup. apply lookup_insert_ne. congruence.
Qed.

Lemma setattr_then_getattr_witness :
  stored_attribute "age" = true /\
  setattr CPet "age" (VInt 4) rex = (Ok tt, <["age" := VInt 4]> rex) /\
  getattr CPet "age" (<["age" := VInt 4]> rex) = (Ok (VInt 4), <["age" := VInt 4]> rex).
Proof.
  assert (H : setattr CPet "age" (VInt 4) rex = (Ok tt, <["age" := VInt 4]> rex))
    by reflexivity.
  split; [reflexivity|]. split; [exact H|].
  apply (setattr_then_getattr CPet "age" "name" (VInt 4) rex _ eq_refl H).
Defined.

(** ** The validated attributes stay valid *)

Lemma Name_set_accepted (attr : string) (v : value) (d d' : dict) :
  Name.__set__ attr v d = (Ok tt, d') -> valid_name v.
Proof.
  intros H. apply (Name_set_succeeds attr v d). rewrite H. apply succeeds_Ok.
Qed.

Lemma Age_set_accepted (attr : string) (v : value) (d d' : dict) :
  Age.__set__ attr v d = (Ok tt, d') -> valid_age v.
Proof.
  intros H. apply (Age_set_succeeds attr v d). rewrite H. apply succeeds_Ok.
Qed.

Lemma Phone_set_accepted (attr : string) (v : value) (d d' : dict) :
  Phone.__set__ attr v d = (Ok tt, d') -> valid_phone v.
Proof.
  intros H. apply (Phone_set_succeeds attr v d). rewrite H. apply succeeds_Ok.
Qed.

Lemma setattr_keeps_pet_valid (attr : string) (v : value) (d : dict) :
  pet_valid d -> pet_valid (snd (setattr CPet attr v d)).
Proof.
  intros [(n & Hn & Hvn) (a & Ha & Hva)].
  destruct (setattr_cases CPet attr v d) as [Hok | (msg & Hraise)];
    [|rewrite Hraise; split; eauto].
  rewrite Hok. cbn [snd].
  destruct (decide (attr = "name")) as [-> | Hne1].
  - split; [exists v | exists a].
    + split; [apply lookup_insert_eq | exact (Name_set_accepted "name" v d _ Hok)].
    + split; [rewrite lookup_insert_ne by discriminate; exact Ha | exact Hva].
  - destruct (decide (attr = "age")) as [-> | Hne2].
    + split; [exists n | exists v].
      * split; [rewrite lookup_insert_ne by discriminate; exact Hn | exact Hvn].
      * split; [apply lookup_insert_eq | exact (Age_set_accepted "age" v d _ Hok)].
    + split; [exists n | exists a]; (split; [rewrite lookup_insert_ne by exact Hne1 || exact Hne2|]);
        assumption.
Qed.

Lemma setattr_keeps_client_valid (attr : string) (v : value) (d : dict) :
  client_valid d -> client_valid (snd (setattr CClient attr v d)).
Proof.
  intros [(n & Hn & Hvn) (p & Hp & Hvp)].
  destruct (setattr_cases CClient attr v d) as [Hok | (msg & Hraise)];
    [|rewrite Hraise; split; eauto].
  rewrite Hok. cbn [snd].
  destruct (decide (attr = "name")) as [-> | Hne1].
  - split; [exists v | exists p].
    + split; [apply lookup_insert_eq | exact (Name_set_accepted "name" v d _ Hok)].
    + split; [rewrite lookup_insert_ne by discriminate; exact Hp | exact Hvp].
  - destruct (decide (attr = "phone")) as [-> | Hne2].
    + split; [exists n | exists v].
      * split; [rewrite lookup_insert_ne by discriminate; exact Hn | exact Hvn].
      * split; [apply lookup_insert_eq | exact (Phone_set_accepted "phone" v d _ Hok)].
    + split; [exists n | exists p]; (split; [rewrite lookup_insert_ne by exact Hne1 || exact Hne2|]);
        assumption.
Qed.

(** X7. The validated attributes never hold a refused value: a
    constructor that returns leaves them valid, and every later attempt
    to assign one of the attributes the program stores on its objects
    ([name], [age], [phone], [scheduled_appointment],
    [past_appointments], [pets], [filename], [clients]), accepted or
    refused, keeps them valid. *)
Theorem validated_fields_stay_valid
    (name other : value) (d0 d : dict) (attr : string) (v : value) :
  (Pet.new name other = Ok (VObj CPet d0) -> pet_valid d0) /\
  (Client.new name other = Ok (VObj CClient d0) -> client_valid d0) /\
  (stored_attribute attr = true ->
   pet_valid d -> pet_valid (snd (setattr CPet attr v d))) /\
  (stored_attribute attr = true ->
   client_valid d -> client_valid (snd (setattr CClient attr v d))).
Proof.
  split; [|split; [|split]].
  - intros Hnew.
    destruct (valid_name_dec name) as [Hn | Hn];
      [|rewrite (Pet_new_name_invalid name other Hn) in Hnew; discriminate Hnew].
    destruct (valid_age_dec other) as [Ha | Ha];
      [|rewrite (Pet_new_age_invalid name other Hn Ha) in Hnew; discriminate Hnew].
    rewrite (Pet_new_valid name other Hn Ha) in Hnew. injection Hnew as <-.
    split; [exists name | exists other]; (split; [|assumption]).
    + rewrite !lookup_insert_ne by discriminate. apply lookup_insert_eq.
    + rewrite !lookup_insert_ne by discriminate. apply lookup_insert_eq.
  - intros Hnew.
    destruct (valid_name_dec name) as [Hn | Hn];
      [|rewrite (Client_new_name_invalid name other Hn) in Hnew; discriminate Hnew].
    destruct (valid_phone_dec other) as [Hp | Hp];
      [|rewrite (Client_new_phone_invalid name other Hn Hp) in Hnew; discriminate Hnew].
    rewrite (Client_new_valid name other Hn Hp) in Hnew. injection Hnew as <-.
    split; [exists name | exists other]; (split; [|assumption]).
    + rewrite !lookup_insert_ne by discriminate. apply lookup_insert_eq.
    + rewrite !lookup_insert_ne by discriminate. apply lookup_insert_eq.
  - intros _. apply setattr_keeps_pet_valid.
  - intros _. apply setattr_keeps_client_valid.
Qed.

Lemma rex_valid : pet_valid rex.
Proof.
  split; [exists (VStr (lit "Rex")) | exists (VInt 3)]; (split; [reflexivity|]).
  - exists (lit "Rex"). split; [reflexivity | vm_compute; lia].
  - exists 3. split; [reflexivity | lia].
Qed.

Lemma validated_fields_stay_valid_witness :
  stored_attribute "age" = true /\
  pet_valid rex /\ pet_valid (snd (setattr CPet "age" (VInt 0) rex)).
Proof.
  split; [reflexivity|]. split; [exact rex_valid|].
  apply (validated_fields_stay_valid VNone VNone ∅ rex "age" (VInt 0));
    [reflexivity | exact rex_valid].
Defined.

(** ** Client: pets *)

Lemma add_pet_run (pet : value) (d : dict) (pets : list value) :
  d !! "pets" = Some (VList pets) ->
  Client.add_pet pet d = (Ok tt, <["pets" := VList (pets ++ [pet])]> d).
Proof.
  intros Hp. unfold Client.add_pet, attr_append, bind.
  rewrite (getattr_plain CClient "pets" d (VList pets)) by (reflexivity || assumption).
  reflexivity.
Qed.

(** X8. Pets added to a client one after the other end up behind the
    pets it had, in the order of the calls; nothing is dropped, merged or
    reordered (adding the same pet twice lists it twice) and no other
    attribute of the client changes. *)
Theorem add_pets_appends_in_order (new : list value) :
  forall (d : dict) (pets : list value),
    d !! "pets" = Some (VList pets) ->
    add_pets new d = (Ok tt, <["pets" := VList (pets ++ new)]> d).
Proof.
  induction new as [ | p new IH]; intros d pets Hp.
  - cbn [add_pets]. rewrite app_nil_r, (insert_id d "pets" _ Hp). reflexivity.
  - cbn [add_pets]. unfold bind. rewrite (add_pet_run p d pets Hp).
    rewrite (IH _ (pets ++ [p]) (lookup_insert_eq _ _ _)).
    rewrite insert_insert_eq, <- app_assoc. reflexivity.
Qed.

Lemma add_pets_appends_in_order_witness :
  exists d : dict,
    boris = VObj CClient d /\
    d !! "pets" = Some (VList [VObj CPet rex]) /\
    add_pets [VObj CPet rex_scheduled; VObj CPet rex] d =
      (Ok tt,
       <["pets" := VList [VObj CPet rex; VObj CPet rex_scheduled; VObj CPet rex]]> d).
Proof.
  eexists. split; [reflexivity|]. split; [reflexivity|].
  apply (add_pets_appends_in_order [VObj CPet rex_scheduled; VObj CPet rex] _
           [VObj CPet rex]).
  reflexivity.
Defined.

(** ** Names and surrounding whitespace *)

Lemma lstrip_app_space (l s : str) :
  forallb isspace_char l = true -> lstrip (l ++ s) = lstrip s.
Proof.
  induction l as [ | c l IH]; [reflexivity|].
  cbn [forallb app lstrip]. intros H. apply andb_prop in H as [Hc Hl].
  rewrite Hc. apply IH. exact Hl.
Qed.

Lemma forallb_rev_space (l : str) :
  forallb isspace_char l = true -> forallb isspace_char (rev l) = true.
Proof.
  intros H. apply forallb_forall. intros c Hc. apply in_rev in Hc.
  revert c Hc. apply forallb_forall. exact H.
Qed.

Lemma rstrip_app_space (t r : str) :
  forallb isspace_char r = true -> rstrip (t ++ r) = rstrip t.
Proof.
  intros Hr. unfold rstrip. rewrite rev_app_distr.
  rewrite (lstrip_app_space (rev r) (rev t) (forallb_rev_space r Hr)). reflexivity.
Qed.

Lemma strip_app_space (s r : str) :
  forallb isspace_char r = true -> strip (s ++ r) = strip s.
Proof.
  intros Hr. unfold strip. induction s as [ | c s IH].
  - cbn [app]. rewrite <- (app_nil_r r), (lstrip_app_space r [] Hr). reflexivity.
  - cbn [app lstrip]. destruct (isspace_char c); [exact IH|].
    apply (rstrip_app_space (c :: s) r Hr).
Qed.

Lemma strip_pad (l s r : str) :
  forallb isspace_char l = true -> forallb isspace_char r = true ->
  strip (l ++ s ++ r) = strip s.
Proof.
  intros Hl Hr. unfold strip at 1. rewrite (lstrip_app_space l (s ++ r) Hl).
  apply (strip_app_space s r Hr).
Qed.

(** X9. Whitespace around a name does not count and is not removed: a
    string padded with whitespace on either side is accepted as a name
    exactly when the unpadded string is, what is stored is the padded
    string itself, and a string of whitespace only is refused however
    long it is. *)
Theorem name_padding_does_not_count (l s r : str) (d : dict) :
  forallb isspace_char l = true ->
  forallb isspace_char r = true ->
  (valid_name (VStr (l ++ s ++ r)) <-> valid_name (VStr s)) /\
  (valid_name (VStr s) ->
   setattr CClient "name" (VStr (l ++ s ++ r)) d =
     (Ok tt, <["name" := VStr (l ++ s ++ r)]> d)) /\
  setattr CClient "name" (VStr (l ++ r)) d = (Raise name_error, d).
Proof.
  intros Hl Hr.
  assert (Hiff : valid_name (VStr (l ++ s ++ r)) <-> valid_name (VStr s)).
  { split; intros (s' & Hs & Hlen); injection Hs as <-; eexists; (split; [reflexivity|]).
    - rewrite <- (strip_pad l s r Hl Hr). exact Hlen.
    - rewrite (strip_pad l s r Hl Hr). exact Hlen. }
  split; [exact Hiff|]. split.
  - intros Hv. apply (Name_set_valid "name"). apply Hiff. exact Hv.
  - apply (Name_set_invalid "name"). intros (s' & Hs & Hlen). injection Hs as <-.
    change (l ++ r) with (l ++ [] ++ r) in Hlen.
    rewrite (strip_pad l [] r Hl Hr) in Hlen. cbn in Hlen. lia.
Qed.

Lemma name_padding_does_not_count_witness :
  forallb isspace_char (lit "  ") = true /\
  forallb isspace_char (lit " ") = true /\
  setattr CClient "name" (VStr (lit "  " ++ lit "Al" ++ lit " ")) ∅ =
    (Ok tt, <["name" := VStr (lit "  Al ")]> ∅) /\
  setattr CClient "name" (VStr (lit "  " ++ lit " ")) ∅ = (Raise name_error, ∅).
Proof.
  split; [reflexivity|]. split; [reflexivity|].
  destruct (name_padding_does_not_count (lit "  ") (lit "Al") (lit " ") ∅ eq_refl eq_refl)
    as (_ & Hok & Hblank).
  split; [|exact Hblank].
  apply Hok. exists (lit "Al"). split; [reflexivity | vm_compute; lia].
Defined.

(** ** Ordinary phone numbers *)

(** X10. Every string of ten or eleven of the digits 0-9 is accepted as a
    phone: the assignment stores it and, with an accepted name, the
    client is created. *)
Theorem ascii_phone_accepted (s : str) (name : value) (d : dict) :
  Forall (fun c => (48 <= c <= 57)%N) s ->
  (length s = 10 \/ length s = 11)%nat ->
  setattr CClient "phone" (VStr s) d = (Ok tt, <["phone" := VStr s]> d) /\
  (valid_name name ->
   Client.new name (VStr s) =
     Ok (VObj CClient
           (<["pets" := VList []]> (<["phone" := VStr s]> (<["name" := name]> ∅))))).
Proof.
  intros Hdigits Hlen.
  assert (Hv : valid_phone (VStr s)).
  { exists s. split; [reflexivity|]. split; [|exact Hlen].
    apply forallb_forall. intros c Hc. apply ascii_digit_isdigit.
    rewrite Forall_forall in Hdigits. apply Hdigits. apply list_elem_of_In. exact Hc. }
  split.
  - apply (Phone_set_valid "phone"). exact Hv.
  - intros Hn. apply Client_new_valid; assumption.
Qed.

Lemma ascii_digits_Forall (s : str) :
  forallb (fun c => (48 <=? c)%N && (c <=? 57)%N) s = true ->
  Forall (fun c => (48 <= c <= 57)%N) s.
Proof.
  intros H. apply Forall_forall. intros c Hc. apply list_elem_of_In in Hc.
  rewrite forallb_forall in H. specialize (H c Hc).
  apply andb_prop in H as [H1 H2]. apply N.leb_le in H1, H2. split; assumption.
Qed.

Lemma ascii_phone_accepted_witness :
  Forall (fun c => (48 <= c <= 57)%N) (lit "79001234567") /\
  (length (lit "79001234567") = 10 \/ length (lit "79001234567") = 11)%nat /\
  setattr CClient "phone" (VStr (lit "79001234567")) ∅ =
    (Ok tt, <["phone" := VStr (lit "79001234567")]> ∅).
Proof.
  assert (H : Forall (fun c => (48 <= c <= 57)%N) (lit "79001234567"))
    by (apply ascii_digits_Forall; reflexivity).
  split; [exact H|]. split; [right; reflexivity|].
  apply (ascii_phone_accepted (lit "79001234567") VNone ∅ H). right. reflexivity.
Defined.

(** ** Database: adding and searching *)

Section Store.
Context {blob : Type}.
Variable unicode_lower : str -> str.

Lemma clients_getattr (w : @Database.world blob) (clients : value) :
  fst w !! "clients" = Some clients ->
  Database.on_self (getattr CDatabase "clients") w = (Ok clients, w).
Proof.
  intros Hc. unfold Database.on_self.
  rewrite (getattr_plain CDatabase "clients" (fst w) clients) by (reflexivity || assumption).
  destruct w. reflexivity.
Qed.

Lemma add_client_run (c : value) (w : @Database.world blob) (clients : list value) :
  fst w !! "clients" = Some (VList clients) ->
  Database.add_client c w =
    (Ok tt, (<["clients" := VList (clients ++ [c])]> (fst w), snd w)).
Proof.
  intros Hc. unfold Database.add_client, Database.on_self, attr_append, bind.
  rewrite (getattr_plain CDatabase "clients" (fst w) (VList clients))
    by (reflexivity || assumption).
  reflexivity.
Qed.

Lemma add_clients_run (new : list value) :
  forall (w : @Database.world blob) (clients : list value),
    fst w !! "clients" = Some (VList clients) ->
    add_clients new w =
      (Ok tt, (<["clients" := VList (clients ++ new)]> (fst w), snd w)).
Proof.
  induction new as [ | c new IH]; intros w clients Hc.
  - cbn [add_clients]. rewrite app_nil_r, (insert_id (fst w) "clients" _ Hc).
    destruct w. reflexivity.
  - cbn [add_clients]. unfold bind. rewrite (add_client_run c w clients Hc).
    rewrite (IH _ (clients ++ [c]) (lookup_insert_eq _ _ _)). cbn [fst snd].
    rewrite insert_insert_eq, <- app_assoc. reflexivity.
Qed.

Lemma find_clients_by_name_run (w : @Database.world blob) (clients : list value) (q : str) :
  fst w !! "clients" = Some (VList clients) ->
  Forall (fun c => is_Some (client_name c)) clients ->
  Database.find_clients_by_name unicode_lower (VStr q) w =
    (Ok (VList (filter
                  (fun c => Database.lower unicode_lower <$> client_name c =
                            Some (Database.lower unicode_lower q))
                  clients)), w).
Proof.
  intros Hc Hn. unfold Database.find_clients_by_name, bind.
  rewrite (clients_getattr w (VList clients) Hc).
  unfold lift. rewrite (comprehension_filter unicode_lower q clients Hn). reflexivity.
Qed.

(** X11. A client added to the store is found from then on: searching by
    name right after [add_client(c)] returns what the search returned
    before, followed by [c] when its lowercased name equals the lowercased
    query, and nothing more. *)
Theorem find_after_add_client
    (w : @Database.world blob) (clients : list value) (c : value) (n q : str) :
  fst w !! "clients" = Some (VList clients) ->
  Forall (fun c => is_Some (client_name c)) clients ->
  client_name c = Some n ->
  (Database.add_client c ;; Database.find_clients_by_name unicode_lower (VStr q)) w =
    (Ok (VList
           (filter (fun c => Database.lower unicode_lower <$> client_name c =
                             Some (Database.lower unicode_lower q)) clients ++
            if decide (Database.lower unicode_lower n = Database.lower unicode_lower q)
            then [c] else [])),
     (<["clients" := VList (clients ++ [c])]> (fst w), snd w)).
Proof.
  intros Hc Hn Hcn. unfold bind at 1. rewrite (add_client_run c w clients Hc).
  rewrite (find_clients_by_name_run _ (clients ++ [c]) q);
    [ | apply lookup_insert_eq
      | apply Forall_app; split; [exact Hn | repeat constructor; rewrite Hcn; eexists; reflexivity]].
  rewrite filter_app, filter_cons, filter_nil, Hcn. cbn [fmap option_fmap option_map].
  destruct (decide (Database.lower unicode_lower n = Database.lower unicode_lower q)) as [Heq | Hne].
  - rewrite decide_True by (rewrite Heq; reflexivity). reflexivity.
  - rewrite decide_False by (intros [= Heq]; contradiction). reflexivity.
Qed.

Lemma name_matches_non_str (v c : value) :
  str_value v = None ->
  is_Some (client_name c) ->
  Database.name_matches unicode_lower v c = Raise AttributeError.
Proof.
  intros Hv [n Hn]. revert Hn. unfold client_name, Database.name_matches, result_bind.
  destruct (obj_getattr c "name") as [[ | | | s | | | ] | ]; try discriminate.
  intros _. cbn [Database.str_lower]. destruct v; try reflexivity. discriminate Hv.
Qed.

(** X12. A query that is not a string is an error only when there is
    somebody to compare it with: on an empty store the search returns the
    empty list for any query value, on a store with at least one client a
    non-string query raises [AttributeError]; the store is unchanged in
    both cases. *)
Theorem find_clients_by_name_non_string_query
    (w : @Database.world blob) (clients : list value) (v : value) :
  fst w !! "clients" = Some (VList clients) ->
  Forall (fun c => is_Some (client_name c)) clients ->
  str_value v = None ->
  Database.find_clients_by_name unicode_lower v w =
    (match clients with
     | [] => Ok (VList [])
     | _ :: _ => Raise AttributeError
     end, w).
Proof.
  intros Hc Hn Hv. unfold Database.find_clients_by_name, bind.
  rewrite (clients_getattr w (VList clients) Hc). unfold lift.
  destruct Hn as [ | c rest Hcn _]; [reflexivity|].
  cbn [Database.comprehension].
  rewrite (name_matches_non_str v c Hv Hcn). reflexivity.
Qed.

Lemma phone_matches_client (q : str) (c : value) :
  is_client c ->
  Database.phone_matches q c = Ok (bool_decide (client_phone c = Some q)).
Proof.
  intros [d ->]. unfold Database.phone_matches, client_phone, obj_getattr, result_bind.
  change (getattr CClient "phone") with (dict_get "phone"). unfold dict_get. cbn [fst].
  destruct (default VNone (d !! "phone")) as [ | b | z | s | xs | kv | c kv];
    try (rewrite bool_decide_eq_false_2 by discriminate; reflexivity).
  f_equal. apply bool_decide_ext. split; [intros ->; reflexivity | intros [= ->]; reflexivity].
Qed.

Lemma comprehension_phone_filter (q : str) (clients : list value) :
  Forall is_client clients ->
  Database.comprehension_phone q clients =
    Ok (filter (fun c => client_phone c = Some q) clients).
Proof.
  induction 1 as [ | c rest Hc _ IH]; [reflexivity|].
  cbn [Database.comprehension_phone].
  rewrite (phone_matches_client q c Hc), IH. cbn [result_bind].
  rewrite filter_cons.
  destruct (decide (client_phone c = Some q)) as [Heq | Hne].
  - rewrite bool_decide_eq_true_2 by exact Heq. reflexivity.
  - rewrite bool_decide_eq_false_2 by exact Hne. reflexivity.
Qed.

(** X13. On a store of client objects, [find_clients_by_phone] never
    raises and returns, in the order of the store, exactly the clients
    whose phone is the queried string, code point for code point (no
    trimming, no normalisation of digits); the store is unchanged. *)
Theorem find_clients_by_phone_exact
    (w : @Database.world blob) (clients : list value) (q : str) :
  fst w !! "clients" = Some (VList clients) ->
  Forall is_client clients ->
  Database.find_clients_by_phone q w =
    (Ok (VList (filter (fun c => client_phone c = Some q) clients)), w).
Proof.
  intros Hc Hcl. unfold Database.find_clients_by_phone, bind.
  rewrite (clients_getattr w (VList clients) Hc).
  unfold lift. rewrite (comprehension_phone_filter q clients Hcl). reflexivity.
Qed.
End Store.

Lemma sample_clients_named :
  Forall (fun c => is_Some (client_name c)) [anna; boris; anna_upper].
Proof. repeat constructor; eexists; reflexivity. Qed.

Lemma sample_clients_are_clients : Forall is_client [anna; boris; anna_upper].
Proof. repeat constructor; eexists; reflexivity. Qed.

Lemma find_after_add_client_witness :
  clinic !! "clients" = Some (VList [anna; boris; anna_upper]) /\
  Forall (fun c => is_Some (client_name c)) [anna; boris; anna_upper] /\
  client_name anna = Some (lit "Anna") /\
  fst ((Database.add_client (blob := unit) anna ;;
        Database.find_clients_by_name id (VStr (lit "ANNA"))) (clinic, ∅)) =
    Ok (VList [anna; anna_upper; anna]).
Proof.
  split; [reflexivity|]. split; [exact sample_clients_named|]. split; [reflexivity|].
  rewrite (find_after_add_client (blob := unit) id (clinic, ∅) [anna; boris; anna_upper]
             anna (lit "Anna") (lit "ANNA") eq_refl sample_clients_named eq_refl).
  reflexivity.
Defined.

Lemma find_clients_by_name_non_string_query_witness :
  clinic !! "clients" = Some (VList [anna; boris; anna_upper]) /\
  Forall (fun c => is_Some (client_name c)) [anna; boris; anna_upper] /\
  str_value (VInt 5) = None /\
  Database.find_clients_by_name (blob := unit) id (VInt 5) (clinic, ∅) =
    (Raise AttributeError, (clinic, ∅)).
Proof.
  split; [reflexivity|]. split; [exact sample_clients_named|]. split; [reflexivity|].
  apply (find_clients_by_name_non_string_query (blob := unit) id (clinic, ∅)
           [anna; boris; anna_upper] (VInt 5) eq_refl sample_clients_named eq_refl).
Defined.

Lemma find_clients_by_phone_exact_witness :
  clinic !! "clients" = Some (VList [anna; boris; anna_upper]) /\
  Forall is_client [anna; boris; anna_upper] /\
  Database.find_clients_by_phone (blob := unit) (lit "4957654321") (clinic, ∅) =
    (Ok (VList [boris]), (clinic, ∅)).
Proof.
  split; [reflexivity|]. split; [exact sample_clients_are_clients|].
  rewrite (find_clients_by_phone_exact (blob := unit) (clinic, ∅) [anna; boris; anna_upper]
             (lit "4957654321") eq_refl sample_clients_are_clients).
  reflexivity.
Defined.

(** ** Database: files *)

Section Files.
Context {blob : Type}.
Variable os_refuses : bool -> str -> gmap str (file blob) -> option exn.
Variable pickle_dumps : value -> blob.
Variable pickle_loads : blob -> result value.

(** X14. What [load] does with a file that opens but does not unpickle.
    When the file is empty, [pickle.load] raises [EOFError], which leaves
    [load] with the store and the disk as they were.  When unpickling its
    bytes raises, that exception leaves [load] with the store and the
    disk as they were, unless it is a [FileNotFoundError]: the [except]
    clause covers the whole [try] block, so that one is caught and
    [load] returns normally with [clients] set to the empty list. *)
Theorem load_unreadable_file_raises
    (d : dict) (disk : gmap str (file blob)) (path : str) (b : blob) (e : exn) :
  d !! "filename" = Some (VStr path) ->
  Database.refusal os_refuses false path disk = None ->
  (disk !! path = Some Empty ->
   Database.load pickle_loads os_refuses (d, disk) = (Raise EOFError, (d, disk))) /\
  (disk !! path = Some (Data b) -> pickle_loads b = Raise e ->
   Database.load pickle_loads os_refuses (d, disk) =
     match e with
     | FileNotFoundError => (Ok tt, (<["clients" := VList []]> d, disk))
     | _ => (Raise e, (d, disk))
     end).
Proof.
  intros Hf Hr. split.
  - intros Hb. unfold Database.load, try_except, bind, Database.on_self. cbn [fst snd].
    rewrite (getattr_plain CDatabase "filename" d (VStr path)) by (reflexivity || assumption).
    unfold Database.open_rb, Database.pickle_load. cbn [fst snd].
    rewrite Hr, Hb. cbn [fst snd]. rewrite Hb. reflexivity.
  - intros Hb Hl. unfold Database.load, try_except, bind, Database.on_self. cbn [fst snd].
    rewrite (getattr_plain CDatabase "filename" d (VStr path)) by (reflexivity || assumption).
    unfold Database.open_rb, Database.pickle_load. cbn [fst snd].
    rewrite Hr, Hb. cbn [fst snd]. rewrite Hb, Hl.
    destruct e; reflexivity.
Qed.


(** X16. What a session adds and saves is there in the next session.
    Starting where opening the file is answered with "not found", and
    where [open] lets the file name through for writing: constructing the
    database, adding clients one by one and saving returns normally; if
    the written file can then be opened for reading, a database
    constructed afterwards on the same file name, with a lossless
    [pickle], has exactly the added clients, in the order they were
    added. *)
Theorem session_persists
    (disk : gmap str (file blob)) (path : str) (added : list value) :
  (forall v : value, pickle_loads (pickle_dumps v) = Ok v) ->
  Database.refusal os_refuses false path disk = Some FileNotFoundError \/
  (Database.refusal os_refuses false path disk = None /\ disk !! path = None) ->
  Database.refusal os_refuses true path disk = None ->
  Database.refusal os_refuses false path
    (<[path := Data (pickle_dumps (VList added))]> disk) = None ->
  exists (d : dict) (disk' : gmap str (file blob)),
    (Database.__init__ pickle_loads os_refuses (VStr path) ;;
     add_clients added ;;
     Database.save pickle_dumps os_refuses) (∅, disk) = (Ok tt, (d, disk')) /\
    Database.__init__ pickle_loads os_refuses (VStr path) (∅, disk') = (Ok tt, (d, disk')) /\
    d !! "clients" = Some (VList added).
Proof.
  intros Hrt Hb Hw Hr.
  exists (<["clients" := VList added]> (<["filename" := VStr path]> ∅)).
  exists (<[path := Data (pickle_dumps (VList added))]> disk).
  assert (Hfile : forall v : value,
             (<["clients" := v]> (<["filename" := VStr path]> (∅ : dict)))
               !! "filename" = Some (VStr path))
    by (intros v; rewrite lookup_insert_ne by discriminate; apply lookup_insert_eq).
  split; [|split].
  - unfold bind at 1. rewrite init_run.
    rewrite (load_not_found os_refuses pickle_loads _ disk path (Hfile _) Hb).
    rewrite insert_insert_eq. unfold bind at 1.
    rewrite (add_clients_run added _ [] (lookup_insert_eq _ _ _)). cbn [fst snd app].
    rewrite insert_insert_eq.
    apply (save_run os_refuses pickle_dumps _ disk path (VList added) (Hfile _)
             (lookup_insert_eq _ _ _) Hw).
  - rewrite init_run.
    rewrite (load_run os_refuses pickle_loads _ _ path (pickle_dumps (VList added))
               (VList added) (Hfile _) Hr (lookup_insert_eq _ _ _) (Hrt _)).
    rewrite insert_insert_eq. reflexivity.
  - apply lookup_insert_eq.
Qed.
End Files.

Lemma load_unreadable_file_raises_witness :
  clinic !! "filename" = Some (VStr (lit "database.pkl")) /\
  Database.refusal (blob := unit) no_refusals false (lit "database.pkl")
    {[ lit "database.pkl" := Data tt ]} = None /\
  Database.load (blob := unit) (fun _ => Raise FileNotFoundError) no_refusals
    (clinic, {[ lit "database.pkl" := Data tt ]}) =
    (Ok tt, (<["clients" := VList []]> clinic, {[ lit "database.pkl" := Data tt ]})) /\
  Database.load (blob := unit) (fun _ => Raise UnpicklingError) no_refusals
    (clinic, {[ lit "database.pkl" := Data tt ]}) =
    (Raise UnpicklingError, (clinic, {[ lit "database.pkl" := Data tt ]})).
Proof.
  split; [reflexivity|]. split; [reflexivity|]. split.
  - destruct (load_unreadable_file_raises (blob := unit) no_refusals
                (fun _ => Raise FileNotFoundError)
                clinic {[ lit "database.pkl" := Data tt ]} (lit "database.pkl") tt
                FileNotFoundError eq_refl eq_refl) as [_ Hdata].
    apply Hdata; [apply lookup_singleton_eq | reflexivity].
  - destruct (load_unreadable_file_raises (blob := unit) no_refusals
                (fun _ => Raise UnpicklingError)
                clinic {[ lit "database.pkl" := Data tt ]} (lit "database.pkl") tt
                UnpicklingError eq_refl eq_refl) as [_ Hdata].
    apply Hdata; [apply lookup_singleton_eq | reflexivity].
Defined.


Lemma session_persists_witness :
  (forall v : value, Ok (id v) = Ok v) /\
  Database.refusal (blob := value) no_refusals false (lit "database.pkl") ∅ = None /\
  (∅ : gmap str (file value)) !! lit "database.pkl" = None /\
  Database.refusal (blob := value) no_refusals true (lit "database.pkl") ∅ = None /\
  exists (d : dict) (disk' : gmap str (file value)),
    Database.__init__ Ok no_refusals (VStr (lit "database.pkl")) (∅, disk') =
      (Ok tt, (d, disk')) /\
    d !! "clients" = Some (VList [anna; boris]).
Proof.
  split; [reflexivity|]. split; [reflexivity|]. split; [apply lookup_empty|].
  split; [reflexivity|].
  destruct (session_persists (blob := value) no_refusals id Ok ∅ (lit "database.pkl")
              [anna; boris] (fun v => eq_refl)
              (or_intror (conj eq_refl (lookup_empty _))) eq_refl eq_refl)
    as (d & disk' & _ & Hinit & Hclients).
  exists d, disk'. split; [exact Hinit | exact Hclients].
Defined.

(** ** The menu handlers *)

Lemma bind_Ok {S A B} (m : M S A) (k : A -> M S B) (s s1 : S) (a : A) :
  m s = (Ok a, s1) -> bind m k s = k a s1.
Proof. intros H. unfold bind. rewrite H. reflexivity. Qed.


Lemma bind_Ok_inv {S A B} (m : M S A) (k : A -> M S B) (s s' : S) (b : B) :
  bind m k s = (Ok b, s') ->
  exists (a : A) (s1 : S), m s = (Ok a, s1) /\ k a s1 = (Ok b, s').
Proof.
  unfold bind. destruct (m s) as [[a | e] s1]; [|discriminate].
  intros H. exists a, s1. split; [reflexivity | exact H].
Qed.

Section Handlers.
Context {blob : Type}.
Variable unicode_lower : str -> str.
Variable parse_int : str -> option Z.
Variable int_error : str -> string.

Abbreviation state := (@Shell.state blob).

(** *** Steps that leave the store alone *)

Lemma keeps_world_bind {A B} (m : M state A) (k : A -> M state B) :
  keeps_world m -> (forall a, keeps_world (k a)) -> keeps_world (bind m k).
Proof.
  intros Hm Hk s. unfold bind. specialize (Hm s).
  destruct (m s) as [[a | e] s1]; cbn [snd] in *; [|exact Hm].
  rewrite (Hk a s1). exact Hm.
Qed.

Lemma keeps_world_ret {A} (a : A) : keeps_world (ret a : M state A).
Proof. intros s. reflexivity. Qed.

Lemma keeps_world_raise {A} (e : exn) : keeps_world (raise e : M state A).
Proof. intros s. reflexivity. Qed.

Lemma keeps_world_lift {A} (r : result A) : keeps_world (lift r : M state A).
Proof. intros s. reflexivity. Qed.

Lemma keeps_world_print (line : list piece) : keeps_world (Shell.print (blob := blob) line).
Proof. intros s. reflexivity. Qed.

Lemma keeps_world_input (prompt : string) :
  keeps_world (Shell.input (blob := blob) prompt).
Proof.
  unfold Shell.input. apply keeps_world_bind; [apply keeps_world_print|].
  intros _ s. destruct (Shell.stdin (snd s)); reflexivity.
Qed.

Lemma keeps_world_getattr (attr : string) :
  keeps_world (Shell.on_db (blob := blob) (Database.on_self (getattr CDatabase attr))).
Proof.
  intros [[db disk] c]. unfold Shell.on_db, Database.on_self. cbn [fst snd].
  pose proof (getattr_state CDatabase attr db) as Hs.
  destruct (getattr CDatabase attr db) as [r d']. cbn [snd] in *. subst d'. reflexivity.
Qed.

Lemma keeps_world_find_clients (cond : value -> result bool) :
  keeps_world (Shell.find_clients (blob := blob) cond).
Proof.
  unfold Shell.find_clients. apply keeps_world_bind; [apply keeps_world_getattr|].
  intros [ | | | | xs | | ]; first [apply keeps_world_raise | apply keeps_world_lift].
Qed.

Lemma keeps_world_report {A} (results : list A) :
  keeps_world (Shell.report (blob := blob) results).
Proof.
  unfold Shell.report. apply keeps_world_bind; [|intros; apply keeps_world_ret].
  destruct results; [apply keeps_world_print | apply keeps_world_ret].
Qed.

Lemma keeps_world_find_client : keeps_world (Shell.find_client (blob := blob) unicode_lower).
Proof.
  unfold Shell.find_client. apply keeps_world_bind; [apply keeps_world_input|].
  intros choice. repeat case_bool_decide.
  - apply keeps_world_bind; [apply keeps_world_input|]. intros name.
    apply keeps_world_bind; [apply keeps_world_find_clients|]. intros; apply keeps_world_report.
  - apply keeps_world_bind; [apply keeps_world_input|]. intros phone.
    apply keeps_world_bind; [apply keeps_world_find_clients|]. intros; apply keeps_world_report.
  - apply keeps_world_bind; [apply keeps_world_print|]. intros; apply keeps_world_ret.
Qed.

Lemma keeps_world_print_numbered {A} (val : A -> value) (lst : list A) :
  forall idx, keeps_world (Shell.print_numbered (blob := blob) val idx lst).
Proof.
  induction lst as [ | item rest IH]; intros idx; cbn [Shell.print_numbered].
  - apply keeps_world_ret.
  - apply keeps_world_bind; [apply keeps_world_print | intros; apply IH].
Qed.

Lemma keeps_world_select_from_list {A} (val : A -> value) (lst : list A) :
  keeps_world (Shell.select_from_list (blob := blob) parse_int int_error val lst).
Proof.
  unfold Shell.select_from_list.
  apply keeps_world_bind; [apply keeps_world_print_numbered|]. intros _.
  apply keeps_world_bind; [apply keeps_world_input|]. intros line.
  apply keeps_world_bind; [apply keeps_world_lift|]. intros choice.
  destruct (_ && _); [apply keeps_world_ret|].
  apply keeps_world_bind; [apply keeps_world_print | intros; apply keeps_world_ret].
Qed.

Lemma keeps_world_select_pet (client : nat * value) :
  keeps_world (Shell.select_pet (blob := blob) parse_int int_error client).
Proof.
  unfold Shell.select_pet. apply keeps_world_bind; [apply keeps_world_lift|].
  intros [ | | | | ps | | ];
    first [apply keeps_world_raise | apply keeps_world_select_from_list].
Qed.

Lemma keeps_world_pick_pet :
  keeps_world (Shell.pick_pet (blob := blob) unicode_lower parse_int int_error).
Proof.
  unfold Shell.pick_pet. apply keeps_world_bind; [apply keeps_world_find_client|].
  intros [ | r results]; [apply keeps_world_ret|].
  apply keeps_world_bind; [apply keeps_world_select_from_list|].
  intros [client | ]; [|apply keeps_world_ret].
  destruct (negb (truthy (snd client))); [apply keeps_world_ret|].
  apply keeps_world_bind; [apply keeps_world_lift|]. intros pets.
  destruct (negb (truthy pets)).
  - apply keeps_world_bind; [apply keeps_world_print | intros; apply keeps_world_ret].
  - apply keeps_world_bind; [apply keeps_world_select_pet|].
    intros [pet | ]; [|apply keeps_world_ret].
    destruct (negb (truthy (snd pet))); apply keeps_world_ret.
Qed.
End Handlers.

Section Selection.
Context {blob : Type}.
Variable unicode_lower : str -> str.
Variable parse_int : str -> option Z.
Variable int_error : str -> string.

Abbreviation state := (@Shell.state blob).

Lemma input_run (prompt : string) (s : state) (line : str) (rest : list str) :
  Shell.stdin (snd s) = line :: rest ->
  Shell.input prompt s =
    (Ok line, (fst s, Shell.Console rest (Shell.stdout (snd s) ++ [[Text prompt]]))).
Proof.
  intros Hin. unfold Shell.input, bind, Shell.print. cbn [fst snd Shell.stdin Shell.stdout].
  rewrite Hin. reflexivity.
Qed.

Lemma print_numbered_run {A} (val : A -> value) (lst : list A) :
  forall (idx : Z) (s : state),
    exists out : list (list piece),
      Shell.print_numbered val idx lst s =
        (Ok tt, (fst s, Shell.Console (Shell.stdin (snd s)) (Shell.stdout (snd s) ++ out))) /\
      length out = length lst.
Proof.
  induction lst as [ | item rest IH]; intros idx s; cbn [Shell.print_numbered].
  - exists []. rewrite app_nil_r. destruct s as [w [i o]]. split; reflexivity.
  - unfold bind, Shell.print at 1.
    destruct (IH (idx + 1)
                (fst s, Shell.Console (Shell.stdin (snd s))
                          (Shell.stdout (snd s) ++
                           [[Shown (VInt idx); Text ". "; Shown (val item)]])))
      as (out & Hrun & Hlen).
    exists ([Shown (VInt idx); Text ". "; Shown (val item)] :: out).
    rewrite Hrun. cbn [fst snd Shell.stdin Shell.stdout length].
    rewrite <- app_assoc. split; [reflexivity | rewrite Hlen; reflexivity].
Qed.

(** X17. The selection is bounds-checked: after listing the items,
    [select_from_list] reads one line; a number from 1 to [len(lst)] gives
    the item at that place (counted from 1), any other integer, zero and
    the negative ones included, gives [None] after the notice, and a line
    that is not an integer raises the [ValueError] of [int].  One line of
    input is used and the store and the disk are not touched. *)
Theorem select_from_list_bounds
    {A : Type} (val : A -> value) (lst : list A) (s : state) (line : str) (rest : list str) :
  Shell.stdin (snd s) = line :: rest ->
  exists out : list (list piece),
    match parse_int line with
    | None =>
        Shell.select_from_list parse_int int_error val lst s =
          (Raise (ValueError (int_error line)), (fst s, Shell.Console rest out))
    | Some k =>
        (1 <= k <= Z.of_nat (length lst) ->
         exists item : A,
           lst !! Z.to_nat (k - 1) = Some item /\
           Shell.select_from_list parse_int int_error val lst s =
             (Ok (Some item), (fst s, Shell.Console rest out))) /\
        (k < 1 \/ Z.of_nat (length lst) < k ->
         Shell.select_from_list parse_int int_error val lst s =
           (Ok None, (fst s, Shell.Console rest (out ++ [[Text "Неверный ввод"]]))))
    end.
Proof.
  intros Hin.
  destruct (print_numbered_run val lst 1 s) as (out & Hprint & _).
  exists (Shell.stdout (snd s) ++ out ++ [[Text "Введите номер: "]]).
  assert (Hstart :
             Shell.select_from_list parse_int int_error val lst s =
             bind (lift (Shell.int parse_int int_error line))
                  (fun choice =>
                     if (1 <=? choice) && (choice <=? Z.of_nat (length lst))
                     then ret (lst !! Z.to_nat (choice - 1))
                     else bind (Shell.print [Text "Неверный ввод"]) (fun _ => ret None))
                  (fst s, Shell.Console rest
                            (Shell.stdout (snd s) ++ out ++ [[Text "Введите номер: "]]))).
  { unfold Shell.select_from_list.
    rewrite (bind_Ok _ _ _ _ _ Hprint). cbv beta.
    rewrite (bind_Ok _ _ _ _ _
               (input_run "Введите номер: "
                  (fst s, Shell.Console (Shell.stdin (snd s)) (Shell.stdout (snd s) ++ out))
                  line rest Hin)).
    cbn [fst snd Shell.stdout]. rewrite <- app_assoc. reflexivity. }
  rewrite Hstart. clear Hstart.
  unfold Shell.int, lift, bind. destruct (parse_int line) as [k | ]; [|reflexivity].
  split.
  - intros Hk.
    destruct (lookup_lt_is_Some_2 lst (Z.to_nat (k - 1))) as [item Hitem]; [lia|].
    exists item. split; [exact Hitem|].
    replace ((1 <=? k) && (k <=? Z.of_nat (length lst))) with true
      by (symmetry; apply andb_true_intro; split; apply Z.leb_le; lia).
    unfold ret. rewrite Hitem. reflexivity.
  - intros Hk.
    replace ((1 <=? k) && (k <=? Z.of_nat (length lst))) with false; [reflexivity|].
    symmetry. apply andb_false_iff. destruct Hk; [left | right]; apply Z.leb_gt; lia.
Qed.

End Selection.

Lemma select_from_list_bounds_witness :
  exists out : list (list piece),
    Shell.select_from_list (blob := unit) (fun _ => Some 0) (fun _ => EmptyString) id
      [anna; boris]
      (clinic, ∅, Shell.Console [lit "0"] []) =
      (Ok None, (clinic, ∅, Shell.Console [] (out ++ [[Text "Неверный ввод"]]))).
Proof.
  destruct (select_from_list_bounds (blob := unit) (fun _ => Some 0) (fun _ => EmptyString)
              id [anna; boris] (clinic, ∅, Shell.Console [lit "0"] []) (lit "0") []
              eq_refl) as (out & _ & Hout).
  exists out. apply Hout. left. lia.
Defined.


(** *** What a picked pet is *)

Lemma tagged_sound (cond : value -> result bool) (xs : list value) :
  forall (i : nat) (ps : list (nat * value)),
    tagged cond i xs = Ok ps ->
    forall (k : nat) (c : value), (k, c) ∈ ps -> exists n : nat, k = (i + n)%nat /\ xs !! n = Some c.
Proof.
  induction xs as [ | x xs IH]; intros i ps; cbn [tagged].
  - intros [= <-] k c Hin. inversion Hin.
  - unfold result_bind. destruct (cond x) as [keep | e]; [|discriminate].
    destruct (tagged cond (S i) xs) as [found | e] eqn:Hfound; [|discriminate].
    intros [= <-] k c Hin.
    assert (Hrest : (k, c) ∈ found -> exists n : nat, k = (i + n)%nat /\ (x :: xs) !! n = Some c).
    { intros Hf. destruct (IH (S i) found Hfound k c Hf) as (n & -> & Hn).
      exists (S n). split; [lia | exact Hn]. }
    destruct keep; [|exact (Hrest Hin)].
    apply elem_of_cons in Hin as [[= -> ->] | Hin]; [|exact (Hrest Hin)].
    exists O. split; [lia | reflexivity].
Qed.

Section Picking.
Context {blob : Type}.
Variable unicode_lower : str -> str.
Variable parse_int : str -> option Z.
Variable int_error : str -> string.

Abbreviation state := (@Shell.state blob).

Lemma kept {A} (m : M state A) (s s1 : state) (r : result A) :
  keeps_world m -> m s = (r, s1) -> fst s1 = fst s.
Proof. intros Hk Hm. specialize (Hk s). rewrite Hm in Hk. exact Hk. Qed.

Lemma store_clients_inv (s s1 : state) (v : value) :
  Shell.on_db (Database.on_self (getattr CDatabase "clients")) s = (Ok v, s1) ->
  fst (fst s) !! "clients" = Some v.
Proof.
  destruct s as [[db disk] c]. unfold Shell.on_db, Database.on_self. cbn [fst snd].
  change (getattr CDatabase "clients" db) with (dict_getattr "clients" db).
  unfold dict_getattr. destruct (db !! "clients") as [v' | ]; [|discriminate].
  intros [= <- _]. reflexivity.
Qed.

Lemma find_clients_sound (cond : value -> result bool)
    (s s1 : state) (results : list (nat * value)) :
  Shell.find_clients cond s = (Ok results, s1) ->
  forall (k : nat) (c : value), (k, c) ∈ results ->
    exists clients : list value,
      fst (fst s) !! "clients" = Some (VList clients) /\ clients !! k = Some c.
Proof.
  unfold Shell.find_clients. intros Hfind.
  apply bind_Ok_inv in Hfind as (v & s2 & Hget & Hfind).
  apply store_clients_inv in Hget.
  destruct v as [ | | | | xs | | ]; try discriminate Hfind.
  unfold lift in Hfind. injection Hfind as Htag _.
  intros k c Hin. destruct (tagged_sound cond xs O results Htag k c Hin) as (n & -> & Hn).
  exists xs. split; [exact Hget | exact Hn].
Qed.

Lemma report_inv {A} (results r : list A) (s s1 : state) :
  Shell.report results s = (Ok r, s1) -> r = results.
Proof.
  unfold Shell.report. intros H. apply bind_Ok_inv in H as (u & s2 & _ & H).
  injection H as <- _. reflexivity.
Qed.

Lemma find_client_sound (s s1 : state) (results : list (nat * value)) :
  Shell.find_client unicode_lower s = (Ok results, s1) ->
  forall (k : nat) (c : value), (k, c) ∈ results ->
    exists clients : list value,
      fst (fst s) !! "clients" = Some (VList clients) /\ clients !! k = Some c.
Proof.
  unfold Shell.find_client. intros H.
  apply bind_Ok_inv in H as (choice & s2 & Hc & H).
  pose proof (kept _ _ _ _ (keeps_world_input _) Hc) as H2.
  repeat case_bool_decide.
  - apply bind_Ok_inv in H as (name & s3 & Hn & H).
    pose proof (kept _ _ _ _ (keeps_world_input _) Hn) as H3.
    apply bind_Ok_inv in H as (found & s4 & Hf & H).
    apply report_inv in H as ->. rewrite <- H2, <- H3.
    exact (find_clients_sound _ _ _ _ Hf).
  - apply bind_Ok_inv in H as (phone & s3 & Hn & H).
    pose proof (kept _ _ _ _ (keeps_world_input _) Hn) as H3.
    apply bind_Ok_inv in H as (found & s4 & Hf & H).
    apply report_inv in H as ->. rewrite <- H2, <- H3.
    exact (find_clients_sound _ _ _ _ Hf).
  - apply bind_Ok_inv in H as (u & s3 & _ & H). injection H as <- _.
    intros k c Hin. inversion Hin.
Qed.

Lemma select_from_list_elem {A} (val : A -> value) (lst : list A)
    (s s1 : state) (x : A) :
  Shell.select_from_list parse_int int_error val lst s = (Ok (Some x), s1) -> x ∈ lst.
Proof.
  unfold Shell.select_from_list. intros H.
  apply bind_Ok_inv in H as (u & s2 & _ & H).
  apply bind_Ok_inv in H as (line & s3 & _ & H).
  apply bind_Ok_inv in H as (choice & s4 & _ & H).
  destruct (_ && _).
  - injection H as H _. exact (list_elem_of_lookup_2 _ _ _ H).
  - apply bind_Ok_inv in H as (u' & s5 & _ & H). discriminate H.
Qed.

Lemma obj_getattr_pets_inv (cv pets : value) :
  obj_getattr cv "pets" = Ok pets ->
  exists (c : pyclass) (cd : dict), cv = VObj c cd /\ cd !! "pets" = Some pets.
Proof.
  destruct cv as [ | | | | | | c cd]; try discriminate. cbn [obj_getattr].
  assert (Hplain : getattr c "pets" cd = dict_getattr "pets" cd) by (destruct c; reflexivity).
  rewrite Hplain. unfold dict_getattr.
  destruct (cd !! "pets") as [v | ] eqn:Hv; [|discriminate].
  intros [= <-]. exists c, cd. split; [reflexivity | exact Hv].
Qed.

Lemma select_pet_sound (i i' j : nat) (cv pv : value) (s s1 : state) :
  Shell.select_pet parse_int int_error (i, cv) s = (Ok (Some (i', j, pv)), s1) ->
  i' = i /\
  exists (c : pyclass) (cd : dict) (pets : list value),
    cv = VObj c cd /\ cd !! "pets" = Some (VList pets) /\ pets !! j = Some pv.
Proof.
  unfold Shell.select_pet. intros H.
  apply bind_Ok_inv in H as (pets & s2 & Hp & H).
  unfold lift in Hp. injection Hp as Hp _. cbn [snd] in Hp.
  apply obj_getattr_pets_inv in Hp as (c & cd & -> & Hpets).
  destruct pets as [ | | | | ps | | ]; try discriminate H.
  apply select_from_list_elem in H.
  apply elem_of_lookup_imap_1 in H as (j' & p & [= -> -> ->] & Hj).
  split; [reflexivity|]. exists c, cd, ps. repeat split; assumption.
Qed.

Lemma pick_pet_sound (s s1 : state) (i j : nat) (pv : value) :
  Shell.pick_pet unicode_lower parse_int int_error s = (Ok (Some (i, j, pv)), s1) ->
  fst s1 = fst s /\ pet_at (fst (fst s)) i j = Some pv.
Proof.
  intros Hpick. split; [exact (kept _ _ _ _ (keeps_world_pick_pet _ _ _) Hpick)|].
  revert Hpick. unfold Shell.pick_pet. intros H.
  apply bind_Ok_inv in H as (results & s2 & Hfind & H).
  destruct results as [ | r results]; [discriminate H|].
  apply bind_Ok_inv in H as (client & s3 & Hsel & H).
  destruct client as [[k cv] | ]; [|discriminate H].
  apply select_from_list_elem in Hsel.
  destruct (find_client_sound _ _ _ Hfind k cv Hsel) as (clients & Hclients & Hk).
  cbn [snd] in H. destruct (negb (truthy cv)); [discriminate H|].
  apply bind_Ok_inv in H as (pets & s4 & _ & H).
  destruct (negb (truthy pets)).
  { apply bind_Ok_inv in H as (u & s5 & _ & H). discriminate H. }
  apply bind_Ok_inv in H as (pet & s5 & Hpet & H).
  destruct pet as [[[i' j'] pv'] | ]; [|discriminate H].
  cbn [snd] in H. destruct (negb (truthy pv')); [discriminate H|].
  injection H as -> -> -> _.
  apply select_pet_sound in Hpet as (-> & c & cd & ps & -> & Hps & Hj).
  unfold pet_at. rewrite Hclients, Hk, Hps. exact Hj.
Qed.
End Picking.

(** *** Writing a pet back *)

Lemma pet_at_inv (db : dict) (i j : nat) (pv : value) :
  pet_at db i j = Some pv ->
  exists (clients : list value) (c : pyclass) (cd : dict) (pets : list value),
    db !! "clients" = Some (VList clients) /\
    clients !! i = Some (VObj c cd) /\
    cd !! "pets" = Some (VList pets) /\
    pets !! j = Some pv.
Proof.
  unfold pet_at.
  destruct (db !! "clients") as [[ | | | | clients | | ] | ] eqn:Hc; try discriminate.
  destruct (clients !! i) as [[ | | | | | | c cd] | ] eqn:Hi; try discriminate.
  destruct (cd !! "pets") as [[ | | | | pets | | ] | ] eqn:Hp; try discriminate.
  intros Hj. exists clients, c, cd, pets. repeat split; assumption.
Qed.

Lemma put_pet_spec (db : dict) (i j : nat) (old new : value) :
  pet_at db i j = Some old ->
  pet_at (put_pet i j new db) i j = Some new /\
  (forall i' j' : nat, (i', j') <> (i, j) ->
     pet_at (put_pet i j new db) i' j' = pet_at db i' j') /\
  (forall attr : string, attr <> "clients" -> put_pet i j new db !! attr = db !! attr) /\
  (new = old -> put_pet i j new db = db).
Proof.
  intros Hat. pose proof Hat as Hat'.
  apply pet_at_inv in Hat' as (clients & c & cd & pets & Hc & Hi & Hp & Hj).
  pose proof (lookup_lt_Some _ _ _ Hi) as Hilt.
  pose proof (lookup_lt_Some _ _ _ Hj) as Hjlt.
  unfold put_pet. rewrite Hc, Hi, Hp.
  split; [|split; [|split]].
  - unfold pet_at. rewrite lookup_insert_eq, (list_lookup_insert_eq _ _ _ Hilt).
    rewrite lookup_insert_eq. apply list_lookup_insert_eq. exact Hjlt.
  - intros i' j' Hne. unfold pet_at. rewrite lookup_insert_eq, Hc.
    destruct (decide (i' = i)) as [-> | Hi'].
    + rewrite (list_lookup_insert_eq _ _ _ Hilt), Hi, lookup_insert_eq, Hp.
      apply list_lookup_insert_ne. congruence.
    + rewrite list_lookup_insert_ne by congruence. reflexivity.
  - intros attr Hattr. apply lookup_insert_ne. congruence.
  - intros ->. rewrite (list_insert_id _ _ _ Hj), (insert_id _ _ _ Hp).
    rewrite (list_insert_id _ _ _ Hi). apply insert_id. exact Hc.
Qed.

Section Appointments.
Context {blob : Type}.
Variable unicode_lower : str -> str.
Variable parse_int : str -> option Z.
Variable int_error : str -> string.

Abbreviation state := (@Shell.state blob).

Lemma call_pet_run {A} (i j : nat) (pd : dict) (method : M dict A) (s : state) :
  Shell.call_pet (i, j, VObj CPet pd) method s =
    (fst (method pd),
     ((put_pet i j (VObj CPet (snd (method pd))) (fst (fst s)), snd (fst s)), snd s)).
Proof.
  unfold Shell.call_pet. cbn [fst snd]. destruct (method pd). reflexivity.
Qed.

(** X18. Scheduling over an existing appointment from the menu is not
    caught: when the picked pet already has a date, [new_appointment]
    asks for the new date and then lets the [ValueError] of
    [add_appointment] out to its caller.  The store and the disk are as
    they were; only the date line has been read. *)
Theorem new_appointment_conflict_escapes
    (s s1 : state) (i j : nat) (pd : dict) (scheduled : value)
    (date : str) (rest : list str) :
  Shell.pick_pet unicode_lower parse_int int_error s = (Ok (Some (i, j, VObj CPet pd)), s1) ->
  pd !! "scheduled_appointment" = Some scheduled ->
  is_None scheduled = false ->
  Shell.stdin (snd s1) = date :: rest ->
  Shell.new_appointment unicode_lower parse_int int_error s =
    (Raise (ValueError "Прием уже запланирован"),
     (fst s,
      Shell.Console rest (Shell.stdout (snd s1) ++ [[Text "Введите дату приема: "]]))).
Proof.
  intros Hpick Hs Hn Hin.
  destruct (pick_pet_sound _ _ _ _ _ _ _ _ Hpick) as [Hworld Hat].
  unfold Shell.new_appointment. rewrite (bind_Ok _ _ _ _ _ Hpick). cbv beta iota.
  rewrite (bind_Ok _ _ _ _ _ (input_run "Введите дату приема: " s1 date rest Hin)).
  cbv beta. unfold bind at 1. rewrite call_pet_run.
  rewrite (add_appointment_conflict_run pd scheduled (VStr date) Hs Hn). cbn [fst snd].
  rewrite Hworld in *.
  destruct (put_pet_spec (fst (fst s)) i j (VObj CPet pd) (VObj CPet pd) Hat)
    as (_ & _ & _ & Hsame).
  rewrite (Hsame eq_refl). destruct s as [[db disk] c]. reflexivity.
Qed.

(** X19. Scheduling from the menu reaches the picked pet: when it has no
    appointment, [new_appointment] asks for the date, returns normally
    and confirms with "Дата приема установлена"; the picked pet then is
    the pet it was with the date typed in its slot, the database is on
    the same file name and the disk is untouched. *)
Theorem new_appointment_changes_picked_pet
    (s s1 : state) (i j : nat) (pd : dict) (date : str) (rest : list str) :
  Shell.pick_pet unicode_lower parse_int int_error s = (Ok (Some (i, j, VObj CPet pd)), s1) ->
  pd !! "scheduled_appointment" = Some VNone ->
  Shell.stdin (snd s1) = date :: rest ->
  exists db' : dict,
    Shell.new_appointment unicode_lower parse_int int_error s =
      (Ok tt,
       ((db', snd (fst s)),
        Shell.Console rest
          ((Shell.stdout (snd s1) ++ [[Text "Введите дату приема: "]]) ++
           [[Text "Дата приема установлена"]]))) /\
    pet_at db' i j = Some (VObj CPet (<["scheduled_appointment" := VStr date]> pd)) /\
    db' !! "filename" = fst (fst s) !! "filename".
Proof.
  intros Hpick Hs Hin.
  destruct (pick_pet_sound _ _ _ _ _ _ _ _ Hpick) as [Hworld Hat].
  destruct (put_pet_spec (fst (fst s)) i j (VObj CPet pd)
              (VObj CPet (<["scheduled_appointment" := VStr date]> pd)) Hat)
    as (Hnew & _ & Hattrs & _).
  eexists. split; [|split; [exact Hnew | apply Hattrs; discriminate]].
  unfold Shell.new_appointment. rewrite (bind_Ok _ _ _ _ _ Hpick). cbv beta iota.
  rewrite (bind_Ok _ _ _ _ _ (input_run "Введите дату приема: " s1 date rest Hin)).
  cbv beta. unfold bind at 1. rewrite call_pet_run.
  rewrite (add_appointment_run pd (VStr date) Hs). cbn [fst snd].
  unfold Shell.print. cbn [fst snd Shell.stdin Shell.stdout].
  rewrite Hworld. reflexivity.
Qed.

(** X20. Through the menu no undated record can be filed.  When the
    picked pet has nothing scheduled, [complete_appointment] prints its
    notice, asks for no comment and leaves store and disk as they were;
    when it has a date, the handler asks for the comment, returns
    normally and confirms, the comment typed is filed with that date at
    the end of the history of the picked pet, its slot is freed, and the
    disk is untouched. *)
Theorem complete_appointment_handler
    (s s1 : state) (i j : nat) (pd : dict) (scheduled : value) (past : list value) :
  Shell.pick_pet unicode_lower parse_int int_error s = (Ok (Some (i, j, VObj CPet pd)), s1) ->
  pd !! "scheduled_appointment" = Some scheduled ->
  pd !! "past_appointments" = Some (VList past) ->
  (is_None scheduled = true ->
   Shell.complete_appointment unicode_lower parse_int int_error s =
     (Ok tt,
      (fst s,
       Shell.Console (Shell.stdin (snd s1))
         (Shell.stdout (snd s1) ++ [[Text "У питомца нет запланированного приема"]])))) /\
  (is_None scheduled = false ->
   forall (comment : str) (rest : list str),
     Shell.stdin (snd s1) = comment :: rest ->
     exists db' : dict,
       Shell.complete_appointment unicode_lower parse_int int_error s =
         (Ok tt,
          ((db', snd (fst s)),
           Shell.Console rest
             ((Shell.stdout (snd s1) ++ [[Text "Введите комментарий ветеринара: "]]) ++
              [[Text "Прием завершен и комментарий добавлен"]]))) /\
       pet_at db' i j =
         Some (VObj CPet
                 (<["scheduled_appointment" := VNone]>
                    (<["past_appointments" :=
                         VList (past ++ [appointment scheduled (VStr comment)])]> pd)))).
Proof.
  intros Hpick Hs Hp.
  destruct (pick_pet_sound _ _ _ _ _ _ _ _ Hpick) as [Hworld Hat].
  assert (Hstart : forall k : value -> M state unit,
             bind (lift (obj_getattr (VObj CPet pd) "scheduled_appointment")) k s1 =
             k scheduled s1).
  { intros k. unfold bind, lift, obj_getattr.
    rewrite (getattr_plain CPet "scheduled_appointment" pd scheduled)
      by (reflexivity || assumption).
    reflexivity. }
  split.
  - intros Hn. unfold Shell.complete_appointment.
    rewrite (bind_Ok _ _ _ _ _ Hpick). cbv beta iota. cbn [snd].
    rewrite Hstart, Hn. unfold Shell.print. rewrite Hworld. reflexivity.
  - intros Hn comment rest Hin.
    destruct (put_pet_spec (fst (fst s)) i j (VObj CPet pd)
                (VObj CPet
                   (<["scheduled_appointment" := VNone]>
                      (<["past_appointments" :=
                           VList (past ++ [appointment scheduled (VStr comment)])]> pd)))
                Hat)
      as (Hnew & _ & _ & _).
    eexists. split; [|exact Hnew].
    unfold Shell.complete_appointment.
    rewrite (bind_Ok _ _ _ _ _ Hpick). cbv beta iota. cbn [snd].
    rewrite Hstart, Hn.
    rewrite (bind_Ok _ _ _ _ _
               (input_run "Введите комментарий ветеринара: " s1 comment rest Hin)).
    cbv beta. unfold bind at 1. rewrite call_pet_run.
    rewrite (complete_appointment_run pd scheduled (VStr comment) past Hs Hp). cbn [fst snd].
    unfold Shell.print. cbn [fst snd Shell.stdin Shell.stdout].
    rewrite Hworld. reflexivity.
Qed.
End Appointments.

Lemma new_appointment_conflict_escapes_witness :
  exists out : list (list piece),
    Shell.new_appointment id always_one no_message (carol_session [lit "2024-06-01"]) =
      (Raise (ValueError "Прием уже запланирован"),
       (practice, ∅, Shell.Console [] out)).
Proof.
  eexists.
  apply (new_appointment_conflict_escapes id always_one no_message
           (carol_session [lit "2024-06-01"])
           (snd (Shell.pick_pet id always_one no_message (carol_session [lit "2024-06-01"])))
           0 0 rex_scheduled (VStr (lit "2024-05-01")) (lit "2024-06-01") []);
    [vm_compute; reflexivity | reflexivity | reflexivity | vm_compute; reflexivity].
Defined.

Lemma new_appointment_changes_picked_pet_witness :
  exists (db' : dict) (out : list (list piece)),
    Shell.new_appointment id always_one no_message (boris_session [lit "2024-06-01"]) =
      (Ok tt, ((db', ∅), Shell.Console [] out)) /\
    pet_at db' 1 0 = Some (VObj CPet (<["scheduled_appointment" := VStr (lit "2024-06-01")]> rex)).
Proof.
  destruct (new_appointment_changes_picked_pet id always_one no_message
              (boris_session [lit "2024-06-01"])
              (snd (Shell.pick_pet id always_one no_message (boris_session [lit "2024-06-01"])))
              1 0 rex (lit "2024-06-01") [])
    as (db' & Hrun & Hpet & _);
    [vm_compute; reflexivity | reflexivity | vm_compute; reflexivity |].
  exists db'. eexists. split; [exact Hrun | exact Hpet].
Defined.

Lemma complete_appointment_handler_witness :
  exists out : list (list piece),
    Shell.complete_appointment id always_one no_message (boris_session [lit "fine"]) =
      (Ok tt, (practice, ∅, Shell.Console [lit "fine"] out)).
Proof.
  destruct (complete_appointment_handler id always_one no_message
              (boris_session [lit "fine"])
              (snd (Shell.pick_pet id always_one no_message (boris_session [lit "fine"])))
              1 0 rex VNone [])
    as (Hguard & _);
    [vm_compute; reflexivity | reflexivity | reflexivity |].
  eexists. rewrite (Hguard eq_refl). vm_compute. reflexivity.
Defined.

(** *** Entering a client *)

Section Entering.
Context {blob : Type}.
Variable unicode_lower : str -> str.
Variable parse_int : str -> option Z.
Variable int_error : str -> string.

Abbreviation state := (@Shell.state blob).




















End Entering.


(** *** The positions kept by the handlers

    The clients the handlers find are the clients the search methods of
    [Database] return, in the same order and with the same failures. *)

Lemma tagged_by_name (unicode_lower : str -> str) (name : value) (xs : list value) :
  forall i : nat,
    (let? found := tagged (Database.name_matches unicode_lower name) i xs in
     Ok (map snd found)) =
    Database.comprehension unicode_lower name xs.
Proof.
  induction xs as [ | x xs IH]; intros i; [reflexivity|].
  cbn [tagged Database.comprehension]. unfold result_bind in *.
  destruct (Database.name_matches unicode_lower name x) as [keep | e]; [|reflexivity].
  specialize (IH (S i)).
  destruct (tagged _ (S i) xs) as [found | e];
    destruct (Database.comprehension unicode_lower name xs) as [found' | e'];
    try discriminate IH; [|congruence].
  injection IH as <-. destruct keep; reflexivity.
Qed.

Lemma tagged_by_phone (phone : str) (xs : list value) :
  forall i : nat,
    (let? found := tagged (Database.phone_matches phone) i xs in Ok (map snd found)) =
    Database.comprehension_phone phone xs.
Proof.
  induction xs as [ | x xs IH]; intros i; [reflexivity|].
  cbn [tagged Database.comprehension_phone]. unfold result_bind in *.
  destruct (Database.phone_matches phone x) as [keep | e]; [|reflexivity].
  specialize (IH (S i)).
  destruct (tagged _ (S i) xs) as [found | e];
    destruct (Database.comprehension_phone phone xs) as [found' | e'];
    try discriminate IH; [|congruence].
  injection IH as <-. destruct keep; reflexivity.
Qed.

Lemma find_clients_by_name_agrees {blob : Type} (unicode_lower : str -> str)
    (name : value) (s : @Shell.state blob) :
  (let? found := fst (Shell.find_clients (Database.name_matches unicode_lower name) s) in
   Ok (VList (map snd found))) =
  fst (Database.find_clients_by_name unicode_lower name (fst s)).
Proof.
  unfold Shell.find_clients, Database.find_clients_by_name, bind, Shell.on_db.
  destruct (Database.on_self (getattr CDatabase "clients") (fst s))
    as [[[ | | | | xs | | ] | e] w]; try reflexivity.
  unfold lift. cbn [fst]. rewrite <- (tagged_by_name unicode_lower name xs 0).
  destruct (tagged _ 0 xs); reflexivity.
Qed.

Lemma find_clients_by_phone_agrees {blob : Type} (phone : str) (s : @Shell.state blob) :
  (let? found := fst (Shell.find_clients (Database.phone_matches phone) s) in
   Ok (VList (map snd found))) =
  fst (Database.find_clients_by_phone phone (fst s)).
Proof.
  unfold Shell.find_clients, Database.find_clients_by_phone, bind, Shell.on_db.
  destruct (Database.on_self (getattr CDatabase "clients") (fst s))
    as [[[ | | | | xs | | ] | e] w]; try reflexivity.
  unfold lift. cbn [fst]. rewrite <- (tagged_by_phone phone xs 0).
  destruct (tagged _ 0 xs); reflexivity.
Qed.
